(** * Wagerr mapping registry: [getmappingid] and [getmappingname]

    A shallow embedding of the two RPC handlers of [src/rpc/bet.cpp].
    The handlers look a name (or an id) up in the mapping index of a
    mapping type; [getmappingid] allocates the first free key and saves a
    new [CMapping] when the name is not there yet.

    What is embedded is the body of each handler from the declaration of
    [dbMapping] on: the help text and the decoding of [params]
    ([get_str], [std::stoi]) belong to the RPC layer, so the handlers
    below take the decoded arguments ([mIndex], [name], [id]). *)

From Stdlib Require Import ZArith List String Bool Lia.
Import ListNotations.

Local Open Scope Z_scope.

(** ** Machine integers *)

(** [unsigned int] and [uint32_t] are 32 bits wide; values are kept in [Z]
    and the wrap-around of [++] is written out. *)
Definition UINT32_MOD : Z := 4294967296.

Definition uint32_incr (n : Z) : Z := (n + 1) mod UINT32_MOD.

(** ** UniValue, as far as the handlers use it *)

#[local] Set Warnings "-register-all".

Inductive UniValue : Type :=
| VNUM  (n : Z)
| VBOOL (b : bool)
| VSTR  (s : string)
| VOBJ  (kvs : list (string * UniValue))
| VARR  (vs : list UniValue).

Definition Pair (k : string) (v : UniValue) : string * UniValue := (k, v).

(** [obj.push_back(Pair(k, v))] appends a member to an object. *)
Definition push_back_pair (o : UniValue) (p : string * UniValue) : UniValue :=
  match o with
  | VOBJ kvs => VOBJ (kvs ++ [p])
  | _ => o
  end.

(** [arr.push_back(v)] appends an element to an array. *)
Definition push_back (a v : UniValue) : UniValue :=
  match a with
  | VARR vs => VARR (vs ++ [v])
  | _ => a
  end.

(** ** Exceptions and results *)

Inductive exn : Type :=
| runtime_error (what : string).

Inductive outcome (A : Type) : Type :=
| Return (a : A)
| Throw (e : exn).

Arguments Return {A} a.
Arguments Throw {A} e.

(** The three errors the handlers raise, under the names the design
    document gives them. *)
Definition InvalidMappingType : exn :=
  runtime_error "No mapping exist for the mapping index you provided.".

Definition IndexUnavailable : exn :=
  runtime_error "No mapping saved for the mapping type you provided.".

Definition MappingNotFound : exn :=
  runtime_error "Currently no mapping name exists for the mapping name you provided.".

Section Registry.

(** ** The parts of the code base the handlers rely on

    [MappingTypes], [CMapping::FromTypeName] and [CMapping::ToTypeName]
    (the type catalog) and [CMappingDB] (the persistent store) are
    declared in [betting/bet.h]; the handlers are verified for every
    catalog and every store. *)

Context {MappingTypes : Type}.
Variable FromTypeName : string -> MappingTypes.
Variable ToTypeName : MappingTypes -> string.

(** [CMapping]: the fields the handlers read and write. *)
Record CMapping : Type := mkCMapping {
  nMType   : MappingTypes;
  nId      : Z;
  sName    : string;
  nVersion : Z
}.

(** [mappingIndex_t] is [std::map<uint32_t, CMapping>]: iteration visits
    the entries by ascending key, so the index is the list of its
    (key, value) entries in that order (see [wf_index]). *)
Definition mappingIndex_t : Type := list (Z * CMapping).

Definition keys (idx : mappingIndex_t) : list Z := map fst idx.

(** [ascending lo l]: [l] is strictly increasing and starts at [lo] or above. *)
Fixpoint ascending (lo : Z) (l : list Z) : bool :=
  match l with
  | [] => true
  | k :: t => (lo <=? k) && ascending (k + 1) t
  end.

(** The invariant of a [std::map<uint32_t, _>]: keys are 32-bit, distinct,
    and met in ascending order. *)
Definition wf_index (idx : mappingIndex_t) : bool :=
  ascending 0 (keys idx) && forallb (fun k => k <? UINT32_MOD) (keys idx).

(** The store behind [CMappingDB]. [Read] is [dbMapping.Read(type, index)]:
    [Some index] when it returns true and fills [index], [None] when it
    returns false. [Save] is [dbMapping.Save(cm)]. *)
Context {Store : Type}.
Variable Read : Store -> MappingTypes -> option mappingIndex_t.
Variable Save : Store -> CMapping -> bool * Store.

(** The calls a handler makes on [dbMapping], in order. *)
Inductive db_op : Type :=
| DbRead (t : MappingTypes)
| DbSave (cm : CMapping).

Record World : Type := mkWorld {
  db  : Store;
  ops : list db_op
}.

(** ** A state and exception monad for the handlers *)

Definition RPC (A : Type) : Type := World -> outcome A * World.

Definition ret {A} (a : A) : RPC A := fun w => (Return a, w).

Definition throw {A} (e : exn) : RPC A := fun w => (Throw e, w).

Definition bind {A B} (m : RPC A) (f : A -> RPC B) : RPC B :=
  fun w =>
    match m w with
    | (Return a, w') => f a w'
    | (Throw e, w') => (Throw e, w')
    end.

Notation "x <- m ;; k" := (bind m (fun x => k))
  (at level 61, m at next level, right associativity).

Definition dbRead (t : MappingTypes) : RPC (option mappingIndex_t) :=
  fun w => (Return (Read (db w) t),
            {| db := db w; ops := ops w ++ [DbRead t] |}).

Definition dbSave (cm : CMapping) : RPC bool :=
  fun w => (Return (fst (Save (db w) cm)),
            {| db := snd (Save (db w) cm); ops := ops w ++ [DbSave cm] |}).

(** ** getmappingid *)

(** The locals the [for] loop of [getmappingid] updates. *)
Record scan_state : Type := mkScan {
  mapping             : UniValue;
  nFirstIndexFree     : Z;
  mappingFound        : bool;
  FirstIndexFreeFound : bool
}.

Definition scan_init : scan_state :=
  {| mapping := VOBJ [];
     nFirstIndexFree := 0;
     mappingFound := false;
     FirstIndexFreeFound := false |}.

(** One iteration of the loop; [it] is the entry the iterator points at.
    The cast of [nId] to [uint64_t] widens and keeps the value. *)
Definition scan_step (mIndex name : string)
           (s : scan_state) (it : Z * CMapping) : scan_state :=
  let s1 :=
    if negb (mappingFound s) then
      if (sName (snd it) =? name)%string then
        {| mapping :=
             push_back_pair
               (push_back_pair
                  (push_back_pair (mapping s)
                     (Pair "mapping-id" (VNUM (nId (snd it)))))
                  (Pair "exists" (VBOOL true)))
               (Pair "mapping-index" (VSTR mIndex));
           nFirstIndexFree := nFirstIndexFree s;
           mappingFound := true;
           FirstIndexFreeFound := FirstIndexFreeFound s |}
      else s
    else s in
  if negb (FirstIndexFreeFound s1) then
    if negb (fst it =? nFirstIndexFree s1) then
      {| mapping := mapping s1;
         nFirstIndexFree := nFirstIndexFree s1;
         mappingFound := mappingFound s1;
         FirstIndexFreeFound := true |}
    else
      {| mapping := mapping s1;
         nFirstIndexFree := uint32_incr (nFirstIndexFree s1);
         mappingFound := mappingFound s1;
         FirstIndexFreeFound := FirstIndexFreeFound s1 |}
  else s1.

Definition scan (mIndex name : string) (idx : mappingIndex_t) : scan_state :=
  fold_left (scan_step mIndex name) idx scan_init.

Definition getmappingid (mIndex name : string) : RPC UniValue :=
  let type := FromTypeName mIndex in
  if negb (ToTypeName type =? mIndex)%string then
    throw (runtime_error "No mapping exist for the mapping index you provided.")
  else
    r <- dbRead type ;;
    match r with
    | None =>
        throw (runtime_error "No mapping saved for the mapping type you provided.")
    | Some mappingIndex =>
        let s := scan mIndex name mappingIndex in
        if negb (mappingFound s) then
          let cm := {| nMType := type;
                       nId := nFirstIndexFree s;
                       sName := name;
                       nVersion := 1 |} in
          _ <- dbSave cm ;;
          ret (push_back (VARR [])
                 (push_back_pair
                    (push_back_pair
                       (push_back_pair (mapping s)
                          (Pair "mapping-id" (VNUM (nFirstIndexFree s))))
                       (Pair "exists" (VBOOL false)))
                    (Pair "mapping-index" (VSTR mIndex))))
        else
          ret (push_back (VARR []) (mapping s))
    end.

(** ** getmappingname *)

(** The [for] loop of [getmappingname]: it stops at the first entry whose
    key is [id]; the result is the pair ([mapping], [mappingFound]). *)
Fixpoint name_loop (mIndex : string) (id : Z) (idx : mappingIndex_t)
         (mapping0 : UniValue) : UniValue * bool :=
  match idx with
  | [] => (mapping0, false)
  | it :: rest =>
      if fst it =? id then
        (push_back_pair
           (push_back_pair
              (push_back_pair mapping0
                 (Pair "mapping-name" (VSTR (sName (snd it)))))
              (Pair "exists" (VBOOL true)))
           (Pair "mapping-index" (VSTR mIndex)),
         true)
      else name_loop mIndex id rest mapping0
  end.

Definition getmappingname (mIndex : string) (id : Z) : RPC UniValue :=
  let type := FromTypeName mIndex in
  if negb (ToTypeName type =? mIndex)%string then
    throw (runtime_error "No mapping exist for the mapping index you provided.")
  else
    r <- dbRead type ;;
    match r with
    | None =>
        throw (runtime_error "No mapping saved for the mapping type you provided.")
    | Some mappingIndex =>
        let '(m, found) := name_loop mIndex id mappingIndex (VOBJ []) in
        if negb found then
          throw (runtime_error
                   "Currently no mapping name exists for the mapping name you provided.")
        else
          ret (push_back (VARR []) m)
    end.

End Registry.

Arguments CMapping MappingTypes : clear implicits.
Arguments mappingIndex_t MappingTypes : clear implicits.
Arguments db_op MappingTypes : clear implicits.
Arguments World MappingTypes Store : clear implicits.

(** ** The replies, spelled out *)

(** What [getmappingid] returns: an array holding one object. The member
    "exists" is true when the name was already in the index and false when
    the mapping has just been created, so the [created] flag of the design
    document is its negation. *)
Definition id_reply (id : Z) (exists_ : bool) (mIndex : string) : UniValue :=
  VARR [VOBJ [("mapping-id"%string, VNUM id);
              ("exists"%string, VBOOL exists_);
              ("mapping-index"%string, VSTR mIndex)]].

(** What [getmappingname] returns. *)
Definition name_reply (name mIndex : string) : UniValue :=
  VARR [VOBJ [("mapping-name"%string, VSTR name);
              ("exists"%string, VBOOL true);
              ("mapping-index"%string, VSTR mIndex)]].

(** The object the loop of [getmappingid] builds from [m] when it meets a
    record whose [nId] is [id]. *)
Definition found_obj (mIndex : string) (m : UniValue) (id : Z) : UniValue :=
  push_back_pair
    (push_back_pair
       (push_back_pair m (Pair "mapping-id" (VNUM id)))
       (Pair "exists" (VBOOL true)))
    (Pair "mapping-index" (VSTR mIndex)).

(** [first_free l n]: [n] is the smallest non-negative integer that is not
    in [l]. *)
Definition first_free (l : list Z) (n : Z) : Prop :=
  0 <= n /\ ~ In n l /\ forall m, 0 <= m < n -> In m l.

(** [iota lo n] is [lo; lo + 1; ...], [n] numbers. *)
Fixpoint iota (lo : Z) (n : nat) : list Z :=
  match n with
  | O => []
  | S n' => lo :: iota (lo + 1) n'
  end.

(** ** An in-memory store *)

Section MemStore.

Context {MappingTypes : Type}.
Variable MType_eq_dec : forall a b : MappingTypes, {a = b} + {a <> b}.

(** Modelled from the spec: how the Persistent Store ([CMappingDB], whose
    code is not among the sources) files a record in a MappingIndex, which
    is keyed by id and ordered ascending: the record goes to its place in
    key order, and takes the place of an entry that has the same key. *)
Fixpoint index_insert (k : Z) (v : CMapping MappingTypes)
         (idx : mappingIndex_t MappingTypes) : mappingIndex_t MappingTypes :=
  match idx with
  | [] => [(k, v)]
  | (k', v') :: rest =>
      if k <? k' then (k, v) :: idx
      else if k =? k' then (k, v) :: rest
      else (k', v') :: index_insert k v rest
  end.

(** Modelled from the spec: the Persistent Store ([CMappingDB], whose code
    is not among the sources). The store holds at most one MappingIndex
    per MappingType, keyed by id. [loadNamespaceIndex(type)] gives the
    index of the type, or NotFound when there is none; [saveRecord(record)]
    adds the one record to the index of the record's type under the
    record's id and reports success, and fails, changing nothing, when
    that type has no index (the store never provisions one). *)
Definition MemStore : Type := MappingTypes -> option (mappingIndex_t MappingTypes).

(** Modelled from the spec: [loadNamespaceIndex] of the Persistent Store,
    standing for [CMappingDB::Read]. *)
Definition mem_Read (st : MemStore) (t : MappingTypes)
  : option (mappingIndex_t MappingTypes) := st t.

(** Modelled from the spec: [saveRecord] of the Persistent Store, standing
    for [CMappingDB::Save]. *)
Definition mem_Save (st : MemStore) (cm : CMapping MappingTypes) : bool * MemStore :=
  match st (nMType cm) with
  | None => (false, st)
  | Some idx =>
      (true,
       fun t => if MType_eq_dec t (nMType cm)
                then Some (index_insert (nId cm) cm idx)
                else st t)
  end.

(** Modelled from the spec: a MappingIndex is keyed by id, that is, every
    record is filed under its own [nId] (the map itself, as the handlers
    see it, does not enforce this). *)
Definition keyed_by_id (idx : mappingIndex_t MappingTypes) : bool :=
  forallb (fun e => fst e =? nId (snd e)) idx.

End MemStore.

(** ** A sample catalog, for running the handlers *)

Module Sample.

(** Modelled from the spec: the Type Catalog ([MappingTypes],
    [FromTypeName] and [ToTypeName] are not among the sources), with the
    namespaces the spec names: sport, region, tournament and team. A token
    that names none of them is sent to [unknownMapping], whose token is
    the empty string. *)
Inductive MappingTypes : Type :=
| sportMapping
| regionMapping
| tournamentMapping
| teamMapping
| unknownMapping.

(** Modelled from the spec: [toType] of the Type Catalog, standing for
    [CMapping::FromTypeName]. *)
Definition FromTypeName (s : string) : MappingTypes :=
  if (s =? "sport")%string then sportMapping
  else if (s =? "region")%string then regionMapping
  else if (s =? "tournament")%string then tournamentMapping
  else if (s =? "team")%string then teamMapping
  else unknownMapping.

(** Modelled from the spec: [toToken] of the Type Catalog, standing for
    [CMapping::ToTypeName]. *)
Definition ToTypeName (t : MappingTypes) : string :=
  match t with
  | sportMapping => "sport"
  | regionMapping => "region"
  | tournamentMapping => "tournament"
  | teamMapping => "team"
  | unknownMapping => ""
  end.

Definition MType_eq_dec (a b : MappingTypes) : {a = b} + {a <> b}.
Proof. decide equality. Defined.

Definition rec (id : Z) (name : string) : CMapping MappingTypes :=
  {| nMType := sportMapping; nId := id; sName := name; nVersion := 1 |}.

(** An index with the keys 0, 1 and 3. *)
Definition idx013 : mappingIndex_t MappingTypes :=
  [(0, rec 0 "Football"); (1, rec 1 "Tennis"); (3, rec 3 "Golf")].

(** An index with the keys 0 and 1. *)
Definition idx01 : mappingIndex_t MappingTypes :=
  [(0, rec 0 "Football"); (1, rec 1 "Tennis")].

(** An index in which two records carry the same name. *)
Definition idx_dup : mappingIndex_t MappingTypes :=
  [(0, rec 0 "Football"); (1, rec 1 "Tennis"); (2, rec 2 "Tennis")].

(** An index whose record under key 1 carries the [nId] 7. *)
Definition idx_skew : mappingIndex_t MappingTypes :=
  [(0, rec 0 "Football"); (1, rec 7 "Tennis")].

(** A store in which only the sport namespace has an index. *)
Definition store_of (idx : mappingIndex_t MappingTypes) : @MemStore MappingTypes :=
  fun t => match t with sportMapping => Some idx | _ => None end.

Definition world_of (idx : mappingIndex_t MappingTypes)
  : World MappingTypes (@MemStore MappingTypes) :=
  {| db := store_of idx; ops := [] |}.

Definition getid := getmappingid FromTypeName ToTypeName mem_Read (mem_Save MType_eq_dec).
Definition getname := getmappingname FromTypeName ToTypeName mem_Read.

End Sample.

(** ** The handlers as the RPC server calls them

    [getmappingid] and [getmappingname] above are the bodies of the
    handlers; what comes before them in [src/rpc/bet.cpp] is the guard on
    [fHelp] and on the number of parameters, and the decoding of the
    parameters. [params] is the array of arguments, given as the list of
    its elements. *)

Definition LF : string := String (Ascii.ascii_of_nat 10) EmptyString.

Definition DQ : string := String (Ascii.ascii_of_nat 34) EmptyString.

Section RpcLayer.

Local Open Scope string_scope.

Context {MappingTypes : Type}.
Variable FromTypeName : string -> MappingTypes.
Variable ToTypeName : MappingTypes -> string.
Context {Store : Type}.
Variable Read : Store -> MappingTypes -> option (mappingIndex_t MappingTypes).
Variable Save : Store -> CMapping MappingTypes -> bool * Store.

(** [HelpExampleCli] and [HelpExampleRpc] are declared in [rpc/server.h]. *)
Variables HelpExampleCli HelpExampleRpc : string -> string -> string.

(** What [UniValue::get_str] throws on a value that is not a string. *)
Variable not_a_string : exn.

(** [std::stoi]: the [int] it reads, or the exception it throws. *)
Variable stoi : string -> outcome Z.

(** [params[i]]: the element, or the null value ([None]) past the end. *)
Definition param (params : list UniValue) (i : nat) : option UniValue :=
  nth_error params i.

Definition get_str (v : option UniValue) : outcome string :=
  match v with
  | Some (VSTR s) => Return s
  | _ => Throw not_a_string
  end.

(** The conversion of an [int] to [uint32_t]. *)
Definition to_uint32 (z : Z) : Z := z mod UINT32_MOD.

(** A computation that touches nothing and may throw. *)
Definition lift {A} (o : outcome A) : @RPC MappingTypes Store A :=
  fun w => (o, w).

Definition help_getmappingid : string :=
  String.concat ""
    ["getmappingid"; LF;
     LF; "Get a mapping ID from the specified mapping index."; LF;
     LF; "Result:"; LF;
     "["; LF;
     "  {"; LF;
     "    "; DQ; "mapping index id"; DQ; ": "; DQ; "xxx"; DQ;
       ",  (numeric) The mapping index."; LF;
     "    "; DQ; "exists"; DQ; ": "; DQ; "xxx"; DQ;
       ", (boolean) mapping id exists"; LF;
     "    "; DQ; "mapping-index"; DQ; ": "; DQ; "xxx"; DQ;
       " (string) The index that was searched."; LF;
     "  }"; LF;
     "]"; LF;
     LF; "Examples:"; LF;
     HelpExampleCli "getmappingid" ""; HelpExampleRpc "getmappingid" ""].

Definition help_getmappingname : string :=
  String.concat ""
    ["getmappingname"; LF;
     LF; "Get a mapping string name from the specified map index."; LF;
     LF; "Result:"; LF;
     "["; LF;
     "  {"; LF;
     "    "; DQ; "mapping name"; DQ; ": "; DQ; "xxx"; DQ;
       ",  (string) The mapping name."; LF;
     "    "; DQ; "exists"; DQ; ": "; DQ; "xxx"; DQ;
       ", (boolean) mapping transaction created or not"; LF;
     "    "; DQ; "mapping-index"; DQ; ": "; DQ; "xxx"; DQ;
       " (string) The index that was searched."; LF;
     "  }"; LF;
     "]"; LF;
     LF; "Examples:"; LF;
     HelpExampleCli "getmappingname" ""; HelpExampleRpc "getmappingname" ""].

(** [getmappingid(params, fHelp)], whole. *)
Definition rpc_getmappingid (params : list UniValue) (fHelp : bool)
  : @RPC MappingTypes Store UniValue :=
  if fHelp || (List.length params <? 2)%nat then
    throw (runtime_error help_getmappingid)
  else
    bind (lift (get_str (param params 0))) (fun mIndex =>
    bind (lift (get_str (param params 1))) (fun name =>
    getmappingid FromTypeName ToTypeName Read Save mIndex name)).

(** [getmappingname(params, fHelp)], whole. *)
Definition rpc_getmappingname (params : list UniValue) (fHelp : bool)
  : @RPC MappingTypes Store UniValue :=
  if fHelp || (List.length params <? 2)%nat then
    throw (runtime_error help_getmappingname)
  else
    bind (lift (get_str (param params 0))) (fun mIndex =>
    bind (lift (get_str (param params 1))) (fun s =>
    bind (lift (stoi s)) (fun n =>
    getmappingname FromTypeName ToTypeName Read mIndex (to_uint32 n)))).

End RpcLayer.

(** ** Instances of the parameters of the RPC layer, for running it *)

Module SampleRpc.

(** Stand-ins for the two help formatters: one line per example. *)
Definition HelpExampleCli (methodname args : string) : string :=
  ("> wagerr-cli " ++ methodname ++ " " ++ args ++ LF)%string.

Definition HelpExampleRpc (methodname args : string) : string :=
  ("> curl " ++ methodname ++ " [" ++ args ++ "]" ++ LF)%string.

Definition not_a_string : exn :=
  runtime_error "JSON value is not a string as expected".

(** The value of a string of decimal digits, if it is one. *)
Fixpoint digits (s : string) (acc : Z) : option Z :=
  match s with
  | EmptyString => Some acc
  | String c t =>
      let n := Z.of_nat (Ascii.nat_of_ascii c) in
      if (48 <=? n) && (n <=? 57) then digits t (10 * acc + (n - 48))
      else None
  end.

(** A stand-in for [std::stoi] that reads an optional minus sign followed
    by decimal digits, within the range of [int]; every other string is
    refused. It is an instance for the parameter [stoi] and is not meant to
    cover the rest of [std::stoi]. *)
Definition stoi (s : string) : outcome Z :=
  let '(neg, body) :=
    match s with
    | String c t =>
        if Ascii.eqb c (Ascii.ascii_of_nat 45) then (true, t) else (false, s)
    | EmptyString => (false, s)
    end in
  match body with
  | EmptyString => Throw (runtime_error "stoi")
  | String _ _ =>
      match digits body 0 with
      | None => Throw (runtime_error "stoi")
      | Some z =>
          let v := if neg then - z else z in
          if (-2147483648 <=? v) && (v <=? 2147483647) then Return v
          else Throw (runtime_error "stoi")
      end
  end.

(** An index that uses the largest 32-bit key. *)
Definition idx_top : mappingIndex_t Sample.MappingTypes :=
  [(0, Sample.rec 0 "Football"); (4294967295, Sample.rec 4294967295 "Last")].

Definition getid :=
  rpc_getmappingid Sample.FromTypeName Sample.ToTypeName
    mem_Read (mem_Save Sample.MType_eq_dec)
    HelpExampleCli HelpExampleRpc not_a_string.

Definition getname :=
  rpc_getmappingname Sample.FromTypeName Sample.ToTypeName
    (Store := MemStore) mem_Read
    HelpExampleCli HelpExampleRpc not_a_string stoi.

End SampleRpc.

(** * Facts about the loop of [getmappingid] *)

Section ScanFacts.

Context {MappingTypes : Type}.
Variables mIndex name : string.

Local Abbreviation index := (mappingIndex_t MappingTypes).
Local Abbreviation step := (@scan_step MappingTypes mIndex name).

(** The two searches of one iteration do not interfere. *)
Lemma step_mappingFound s it :
  mappingFound (step s it) = mappingFound s || (sName (snd it) =? name)%string.
Proof.
  unfold scan_step.
  destruct (mappingFound s) eqn:Hf, (sName (snd it) =? name)%string;
    simpl; rewrite ?Hf;
    destruct (FirstIndexFreeFound s); simpl;
    try destruct (fst it =? nFirstIndexFree s); simpl; auto.
Qed.

Lemma step_mapping s it :
  mapping (step s it) =
    if mappingFound s then mapping s
    else if (sName (snd it) =? name)%string then found_obj mIndex (mapping s) (nId (snd it))
         else mapping s.
Proof.
  unfold scan_step, found_obj.
  destruct (mappingFound s) eqn:Hf, (sName (snd it) =? name)%string;
    simpl;
    destruct (FirstIndexFreeFound s); simpl;
    try destruct (fst it =? nFirstIndexFree s); simpl; auto.
Qed.

Lemma step_FirstIndexFreeFound s it :
  FirstIndexFreeFound (step s it) =
    FirstIndexFreeFound s || negb (fst it =? nFirstIndexFree s).
Proof.
  unfold scan_step.
  destruct (mappingFound s), (sName (snd it) =? name)%string; simpl;
    destruct (FirstIndexFreeFound s) eqn:Hf; simpl; auto;
    destruct (fst it =? nFirstIndexFree s); simpl; auto.
Qed.

Lemma step_nFirstIndexFree s it :
  nFirstIndexFree (step s it) =
    if FirstIndexFreeFound s then nFirstIndexFree s
    else if fst it =? nFirstIndexFree s then uint32_incr (nFirstIndexFree s)
         else nFirstIndexFree s.
Proof.
  unfold scan_step.
  destruct (mappingFound s), (sName (snd it) =? name)%string; simpl;
    destruct (FirstIndexFreeFound s) eqn:Hf; simpl; auto;
    destruct (fst it =? nFirstIndexFree s); simpl; auto.
Qed.

(** *** The name search *)

Lemma fold_found_stable (idx : index) s :
  mappingFound s = true ->
  mappingFound (fold_left step idx s) = true /\
  mapping (fold_left step idx s) = mapping s.
Proof.
  revert s. induction idx as [|it rest IH]; intros s Hs; simpl; [auto|].
  destruct (IH (step s it)) as [H1 H2].
  - rewrite step_mappingFound, Hs. reflexivity.
  - split; [exact H1|]. rewrite H2, step_mapping, Hs. reflexivity.
Qed.

Lemma fold_no_match (idx : index) s :
  mappingFound s = false ->
  (forall e, In e idx -> sName (snd e) <> name) ->
  mappingFound (fold_left step idx s) = false /\
  mapping (fold_left step idx s) = mapping s.
Proof.
  revert s. induction idx as [|it rest IH]; intros s Hs Hno; simpl; [auto|].
  assert (Hit : (sName (snd it) =? name)%string = false).
  { apply String.eqb_neq. apply Hno. left. reflexivity. }
  destruct (IH (step s it)) as [H1 H2].
  - rewrite step_mappingFound, Hs, Hit. reflexivity.
  - intros e He. apply Hno. right. exact He.
  - split; [exact H1|]. rewrite H2, step_mapping, Hs, Hit. reflexivity.
Qed.

Lemma fold_first_match (pre post : index) k r s :
  mappingFound s = false ->
  (forall e, In e pre -> sName (snd e) <> name) ->
  sName r = name ->
  mappingFound (fold_left step (pre ++ (k, r) :: post) s) = true /\
  mapping (fold_left step (pre ++ (k, r) :: post) s) = found_obj mIndex (mapping s) (nId r).
Proof.
  intros Hs Hpre Hr.
  rewrite fold_left_app. simpl.
  destruct (fold_no_match pre s Hs Hpre) as [H1 H2].
  assert (Heq : (sName (snd (k, r)) =? name)%string = true).
  { simpl. apply String.eqb_eq. exact Hr. }
  destruct (fold_found_stable post (step (fold_left step pre s) (k, r))) as [H3 H4].
  - rewrite step_mappingFound, H1, Heq. reflexivity.
  - split; [exact H3|].
    rewrite H4, step_mapping, H1, Heq, H2. reflexivity.
Qed.

(** An index that holds the name splits at the first record that has it. *)
Lemma first_match_split (idx : index) :
  (exists e, In e idx /\ sName (snd e) = name) ->
  exists pre k r post,
    idx = pre ++ (k, r) :: post /\
    (forall e, In e pre -> sName (snd e) <> name) /\
    sName r = name.
Proof.
  induction idx as [|[k r] rest IH]; intros [e [Hin He]].
  - destruct Hin.
  - destruct (String.eqb_spec (sName r) name) as [Hr|Hr].
    + exists [], k, r, rest. simpl. repeat split; auto.
    + destruct IH as (pre & k' & r' & post & Hsplit & Hpre & Hr').
      * destruct Hin as [Hin|Hin].
        -- subst e. simpl in He. contradiction.
        -- exists e. auto.
      * exists ((k, r) :: pre), k', r', post. simpl. rewrite Hsplit.
        repeat split; auto.
        intros e' [He'|He']; [subst e'; exact Hr | apply Hpre; exact He'].
Qed.

(** *** The search for the first free key *)

Lemma ascending_lower lo (l : list Z) n :
  ascending lo l = true -> In n l -> lo <= n.
Proof.
  revert lo. induction l as [|k t IH]; intros lo Ha Hin; [destruct Hin|].
  simpl in Ha. apply andb_true_iff in Ha. destruct Ha as [Hlo Ht].
  apply Z.leb_le in Hlo.
  destruct Hin as [Hin|Hin]; [lia|].
  specialize (IH _ Ht Hin). lia.
Qed.

Lemma fold_free_stable (idx : index) s :
  FirstIndexFreeFound s = true ->
  FirstIndexFreeFound (fold_left step idx s) = true /\
  nFirstIndexFree (fold_left step idx s) = nFirstIndexFree s.
Proof.
  revert s. induction idx as [|it rest IH]; intros s Hs; simpl; [auto|].
  destruct (IH (step s it)) as [H1 H2].
  - rewrite step_FirstIndexFreeFound, Hs. reflexivity.
  - split; [exact H1|]. rewrite H2, step_nFirstIndexFree, Hs. reflexivity.
Qed.

(** As long as the counter cannot reach 2^32, the loop ends on the
    smallest number from the counter's start on that is not a key; it ends
    without having met a gap only on the number of entries past the start. *)
Lemma fold_free_spec (idx : index) s :
  FirstIndexFreeFound s = false ->
  0 <= nFirstIndexFree s ->
  ascending (nFirstIndexFree s) (keys idx) = true ->
  nFirstIndexFree s + Z.of_nat (List.length idx) < UINT32_MOD ->
  let r := nFirstIndexFree (fold_left step idx s) in
  nFirstIndexFree s <= r <= nFirstIndexFree s + Z.of_nat (List.length idx) /\
  ~ In r (keys idx) /\
  (forall m, nFirstIndexFree s <= m < r -> In m (keys idx)) /\
  (FirstIndexFreeFound (fold_left step idx s) = false ->
   r = nFirstIndexFree s + Z.of_nat (List.length idx)).
Proof.
  revert s. induction idx as [|[k v] rest IH]; intros s Hs H0 Hasc Hlen.
  - simpl. repeat split; try lia.
  - cbn [fold_left keys map fst List.length] in *.
    simpl ascending in Hasc. apply andb_true_iff in Hasc.
    destruct Hasc as [Hlo Hrest]. apply Z.leb_le in Hlo.
    rewrite Nat2Z.inj_succ in *.
    destruct (Z.eqb_spec k (nFirstIndexFree s)) as [Hk|Hk].
    + (* the key is the candidate: the counter moves on *)
      assert (Hinc : uint32_incr (nFirstIndexFree s) = nFirstIndexFree s + 1).
      { unfold uint32_incr. apply Z.mod_small. lia. }
      assert (Hn : nFirstIndexFree (step s (k, v)) = nFirstIndexFree s + 1).
      { rewrite step_nFirstIndexFree, Hs. simpl fst.
        rewrite (proj2 (Z.eqb_eq _ _) Hk). exact Hinc. }
      assert (Hf : FirstIndexFreeFound (step s (k, v)) = false).
      { rewrite step_FirstIndexFreeFound, Hs. simpl fst.
        rewrite (proj2 (Z.eqb_eq _ _) Hk). reflexivity. }
      specialize (IH (step s (k, v)) Hf).
      rewrite Hn in IH. subst k.
      destruct IH as (Hr & Hnin & Hall & Hend); try lia; try exact Hrest.
      fold (keys rest) in *.
      split; [lia|]. split; [|split].
      * intros [Hin|Hin]; [lia | exact (Hnin Hin)].
      * intros m Hm.
        destruct (Z.eq_dec m (nFirstIndexFree s)) as [->|Hne]; [left; reflexivity|].
        right. apply Hall. lia.
      * intros Hff. specialize (Hend Hff). lia.
    + (* a gap: the candidate is free and stays *)
      assert (Hf : FirstIndexFreeFound (step s (k, v)) = true).
      { rewrite step_FirstIndexFreeFound, Hs. simpl fst.
        rewrite (proj2 (Z.eqb_neq _ _) Hk). reflexivity. }
      assert (Hn : nFirstIndexFree (step s (k, v)) = nFirstIndexFree s).
      { rewrite step_nFirstIndexFree, Hs. simpl fst.
        rewrite (proj2 (Z.eqb_neq _ _) Hk). reflexivity. }
      destruct (fold_free_stable rest _ Hf) as [Hff Hnn].
      rewrite Hnn, Hn, Hff.
      fold (keys rest) in *.
      split; [lia|]. split; [|split].
      * intros [Hin|Hin]; [lia|].
        pose proof (ascending_lower _ _ _ Hrest Hin). lia.
      * intros m Hm. lia.
      * discriminate.
Qed.

End ScanFacts.

Section ScanKeys.

Context {MappingTypes : Type}.
Variables mIndex name name' : string.

(** The search for the first free key reads the keys only: neither the
    records nor the requested name matter. *)
Lemma fold_free_keys (idx idx' : mappingIndex_t MappingTypes) s s' :
  keys idx = keys idx' ->
  nFirstIndexFree s = nFirstIndexFree s' ->
  FirstIndexFreeFound s = FirstIndexFreeFound s' ->
  nFirstIndexFree (fold_left (scan_step mIndex name) idx s) =
  nFirstIndexFree (fold_left (scan_step mIndex name') idx' s').
Proof.
  revert idx' s s'.
  induction idx as [|it rest IH]; intros [|it' rest'] s s' Hk Hn Hf;
    simpl in Hk; try discriminate; simpl; [exact Hn|].
  injection Hk as Hfst Hrest.
  apply IH; [exact Hrest | |].
  - rewrite !step_nFirstIndexFree, Hfst, Hn, Hf. reflexivity.
  - rewrite !step_FirstIndexFreeFound, Hfst, Hn, Hf. reflexivity.
Qed.

End ScanKeys.

Section FullIndex.

Context {MappingTypes : Type}.
Variables mIndex name : string.

Lemma ascending_room lo (l : list Z) :
  ascending lo l = true ->
  forallb (fun k => k <? UINT32_MOD) l = true ->
  l <> [] ->
  lo + Z.of_nat (List.length l) <= UINT32_MOD.
Proof.
  revert lo. induction l as [|k t IH]; intros lo Ha Hb Hne; [congruence|].
  simpl in Ha, Hb. apply andb_true_iff in Ha, Hb.
  destruct Ha as [Hlo Ht], Hb as [Hk Hb].
  apply Z.leb_le in Hlo. apply Z.ltb_lt in Hk.
  cbn [List.length]. rewrite Nat2Z.inj_succ.
  destruct t as [|k' t'].
  - simpl. lia.
  - assert (Hne' : k' :: t' <> []) by discriminate.
    specialize (IH _ Ht Hb Hne'). lia.
Qed.

(** The counter is 32 bits wide: on an index that holds every 32-bit key
    it is incremented 2^32 times and ends on 0. *)
Lemma fold_free_full (idx : mappingIndex_t MappingTypes) s :
  FirstIndexFreeFound s = false ->
  0 <= nFirstIndexFree s < UINT32_MOD ->
  ascending (nFirstIndexFree s) (keys idx) = true ->
  forallb (fun k => k <? UINT32_MOD) (keys idx) = true ->
  nFirstIndexFree s + Z.of_nat (List.length idx) = UINT32_MOD ->
  nFirstIndexFree (fold_left (scan_step mIndex name) idx s) = 0.
Proof.
  revert s. induction idx as [|[k v] rest IH]; intros s Hs Hc Hasc Hb Hlen.
  - simpl in Hlen. lia.
  - cbn [fold_left keys map fst List.length] in *.
    fold (keys rest) in *.
    rewrite Nat2Z.inj_succ in Hlen.
    simpl in Hasc, Hb. apply andb_true_iff in Hasc, Hb.
    destruct Hasc as [Hlo Hrest], Hb as [Hk Hb].
    apply Z.leb_le in Hlo. apply Z.ltb_lt in Hk.
    assert (Hkc : k = nFirstIndexFree s).
    { destruct rest as [|e rest'].
      - simpl in Hlen. lia.
      - assert (Hne : keys (e :: rest') <> []) by discriminate.
        pose proof (ascending_room _ _ Hrest Hb Hne) as Hroom.
        unfold keys in Hroom. rewrite length_map in Hroom. lia. }
    assert (Hf : FirstIndexFreeFound (scan_step mIndex name s (k, v)) = false).
    { rewrite step_FirstIndexFreeFound, Hs. simpl fst.
      rewrite (proj2 (Z.eqb_eq _ _) Hkc). reflexivity. }
    assert (Hn : nFirstIndexFree (scan_step mIndex name s (k, v)) =
                 uint32_incr (nFirstIndexFree s)).
    { rewrite step_nFirstIndexFree, Hs. simpl fst.
      rewrite (proj2 (Z.eqb_eq _ _) Hkc). reflexivity. }
    destruct rest as [|e rest'].
    + simpl. rewrite Hn. unfold uint32_incr.
      simpl in Hlen. replace (nFirstIndexFree s + 1) with UINT32_MOD by lia.
      apply Z.mod_same. unfold UINT32_MOD. lia.
    + assert (Hinc : uint32_incr (nFirstIndexFree s) = nFirstIndexFree s + 1).
      { unfold uint32_incr. apply Z.mod_small.
        cbn [List.length] in Hlen. rewrite Nat2Z.inj_succ in Hlen. lia. }
      apply IH; rewrite ?Hn, ?Hinc; auto; try lia.
      * cbn [List.length] in Hlen. rewrite Nat2Z.inj_succ in Hlen. lia.
      * subst k. exact Hrest.
Qed.

(** An index with 2^32 entries holds every 32-bit key. *)
Lemma full_has_every_key lo (l : list Z) :
  ascending lo l = true ->
  forallb (fun k => k <? UINT32_MOD) l = true ->
  lo + Z.of_nat (List.length l) = UINT32_MOD ->
  forall k, lo <= k < UINT32_MOD -> In k l.
Proof.
  revert lo. induction l as [|k0 t IH]; intros lo Ha Hb Hlen k Hk.
  - simpl in Hlen. lia.
  - simpl in Ha, Hb. apply andb_true_iff in Ha, Hb.
    destruct Ha as [Hlo Ht], Hb as [Hk0 Hb].
    apply Z.leb_le in Hlo. apply Z.ltb_lt in Hk0.
    cbn [List.length] in Hlen. rewrite Nat2Z.inj_succ in Hlen.
    assert (Hk0lo : k0 = lo).
    { destruct t as [|k1 t'].
      - simpl in Hlen. lia.
      - assert (Hne : k1 :: t' <> []) by discriminate.
        pose proof (ascending_room _ _ Ht Hb Hne). lia. }
    subst k0.
    destruct (Z.eq_dec k lo) as [->|Hne]; [left; reflexivity|].
    right. apply (IH (lo + 1)); auto; lia.
Qed.

(** A well-formed index leaves a 32-bit key free exactly when it has fewer
    than 2^32 entries. *)
Lemma free_key_iff_room (idx : mappingIndex_t MappingTypes) :
  wf_index idx = true ->
  (exists k, 0 <= k < UINT32_MOD /\ ~ In k (keys idx)) <->
  Z.of_nat (List.length idx) < UINT32_MOD.
Proof.
  intros Hwf. unfold wf_index in Hwf.
  apply andb_true_iff in Hwf. destruct Hwf as [Ha Hb].
  assert (Hlen : List.length (keys idx) = List.length idx)
    by (unfold keys; apply length_map).
  split.
  - intros (k & Hk & Hnin).
    destruct (Z.eq_dec (Z.of_nat (List.length idx)) UINT32_MOD) as [Hfull|Hnot].
    + exfalso. apply Hnin.
      apply (full_has_every_key 0 (keys idx) Ha Hb); [rewrite Hlen|]; lia.
    + destruct idx as [|e rest]; [simpl; unfold UINT32_MOD; lia|].
      assert (Hne : keys (e :: rest) <> []) by discriminate.
      pose proof (ascending_room _ _ Ha Hb Hne) as Hroom.
      rewrite Hlen in Hroom. lia.
  - intros Hroom.
    destruct (fold_free_spec mIndex name idx scan_init)
      as (Hr & Hnin & _ & _); simpl; auto; try lia.
    simpl in Hr. eexists. split; [|exact Hnin]. lia.
Qed.

Lemma scan_wraps_when_full (idx : mappingIndex_t MappingTypes) :
  wf_index idx = true ->
  Z.of_nat (List.length idx) = UINT32_MOD ->
  nFirstIndexFree (scan mIndex name idx) = 0.
Proof.
  intros Hwf Hlen. unfold wf_index in Hwf.
  apply andb_true_iff in Hwf. destruct Hwf as [Ha Hb].
  unfold scan. apply fold_free_full; simpl; auto.
  unfold UINT32_MOD. lia.
Qed.

End FullIndex.

Lemma errors_distinct :
  InvalidMappingType <> IndexUnavailable /\
  InvalidMappingType <> MappingNotFound /\
  IndexUnavailable <> MappingNotFound.
Proof. repeat split; discriminate. Qed.

Section SlotRange.

Context {MappingTypes : Type}.
Variables mIndex name : string.

(** The counter stays a 32-bit number. *)
Lemma fold_free_range (idx : mappingIndex_t MappingTypes) s :
  0 <= nFirstIndexFree s < UINT32_MOD ->
  0 <= nFirstIndexFree (fold_left (scan_step mIndex name) idx s) < UINT32_MOD.
Proof.
  revert s. induction idx as [|it rest IH]; intros s Hs; simpl; [exact Hs|].
  apply IH. rewrite step_nFirstIndexFree.
  destruct (FirstIndexFreeFound s); [exact Hs|].
  destruct (fst it =? nFirstIndexFree s); [|exact Hs].
  unfold uint32_incr. apply Z.mod_pos_bound. unfold UINT32_MOD. lia.
Qed.

Lemma scan_slot_range (idx : mappingIndex_t MappingTypes) :
  0 <= nFirstIndexFree (scan mIndex name idx) < UINT32_MOD.
Proof.
  unfold scan. apply fold_free_range. simpl. unfold UINT32_MOD. lia.
Qed.

End SlotRange.

(** * Facts about first free numbers *)

Lemma first_free_unique (l : list Z) a b :
  first_free l a -> first_free l b -> a = b.
Proof.
  intros (Ha0 & Hal & Ham) (Hb0 & Hbl & Hbm).
  destruct (Z.lt_trichotomy a b) as [Hlt|[Heq|Hgt]]; [|exact Heq|].
  - exfalso. apply Hal. apply Hbm. lia.
  - exfalso. apply Hbl. apply Ham. lia.
Qed.

Lemma In_iota lo n m :
  In m (iota lo n) <-> lo <= m < lo + Z.of_nat n.
Proof.
  revert lo. induction n as [|n IH]; intros lo.
  - simpl. lia.
  - cbn [iota In]. rewrite IH, Nat2Z.inj_succ. lia.
Qed.

Lemma first_free_iota n : first_free (iota 0 n) (Z.of_nat n).
Proof.
  repeat split.
  - lia.
  - rewrite In_iota. lia.
  - intros m Hm. apply In_iota. lia.
Qed.

Lemma first_free_013 : first_free [0; 1; 3] 2.
Proof.
  repeat split.
  - lia.
  - simpl. intuition lia.
  - intros m Hm. simpl.
    destruct (Z.eq_dec m 0); [auto|]. right. left. lia.
Qed.

(** * The handlers *)

Section HandlerFacts.

Context {MappingTypes : Type}.
Variable FromTypeName : string -> MappingTypes.
Variable ToTypeName : MappingTypes -> string.
Context {Store : Type}.
Variable Read : Store -> MappingTypes -> option (mappingIndex_t MappingTypes).
Variable Save : Store -> CMapping MappingTypes -> bool * Store.

Local Abbreviation getid := (getmappingid FromTypeName ToTypeName Read Save).
Local Abbreviation getname := (getmappingname FromTypeName ToTypeName Read).
Local Abbreviation world := (World MappingTypes Store).

Variable w : world.
Variables mIndex name : string.
Variable idx : mappingIndex_t MappingTypes.

(** The token is one of the catalog, and its index is there. *)
Hypothesis Hvalid : ToTypeName (FromTypeName mIndex) = mIndex.
Hypothesis Hread : Read (db w) (FromTypeName mIndex) = Some idx.

(** [getmappingid] on a loaded index whose scan found the name. *)
Lemma getmappingid_found :
  mappingFound (scan mIndex name idx) = true ->
  getid mIndex name w =
    (Return (VARR [mapping (scan mIndex name idx)]),
     {| db := db w; ops := ops w ++ [DbRead (FromTypeName mIndex)] |}).
Proof.
  intros Hf. unfold getmappingid.
  rewrite Hvalid, String.eqb_refl. cbn [negb].
  unfold bind, dbRead. cbv beta iota. rewrite Hread, Hf. reflexivity.
Qed.

(** [getmappingid] on a loaded index whose scan did not find the name. *)
Lemma getmappingid_created :
  mappingFound (scan mIndex name idx) = false ->
  mapping (scan mIndex name idx) = VOBJ [] ->
  let cm := {| nMType := FromTypeName mIndex;
               nId := nFirstIndexFree (scan mIndex name idx);
               sName := name;
               nVersion := 1 |} in
  getid mIndex name w =
    (Return (id_reply (nId cm) false mIndex),
     {| db := snd (Save (db w) cm);
        ops := ops w ++ [DbRead (FromTypeName mIndex); DbSave cm] |}).
Proof.
  intros Hf Hm cm. unfold getmappingid.
  rewrite Hvalid, String.eqb_refl. cbn [negb].
  unfold bind, dbRead. cbv beta iota. rewrite Hread, Hf. cbn [negb].
  unfold dbSave, ret. cbv beta iota. rewrite Hm. cbn [db ops].
  rewrite <- app_assoc. reflexivity.
Qed.

Lemma scan_absent :
  (forall e, In e idx -> sName (snd e) <> name) ->
  mappingFound (scan mIndex name idx) = false /\
  mapping (scan mIndex name idx) = VOBJ [].
Proof.
  intros Hno. unfold scan.
  apply (fold_no_match mIndex name idx scan_init); auto.
Qed.

Lemma scan_first_free :
  wf_index idx = true ->
  Z.of_nat (List.length idx) < UINT32_MOD ->
  first_free (keys idx) (nFirstIndexFree (scan mIndex name idx)).
Proof.
  intros Hwf Hlen. unfold wf_index in Hwf.
  apply andb_true_iff in Hwf. destruct Hwf as [Ha _].
  destruct (fold_free_spec mIndex name idx scan_init) as (Hr & Hnin & Hall & _);
    simpl; auto; try lia.
  unfold scan. simpl in Hr, Hall.
  split; [lia|]. split; [exact Hnin|]. intros m Hm. apply Hall. lia.
Qed.

End HandlerFacts.

(** * Facts about the loop of [getmappingname] *)

Section NameLoopFacts.

Context {MappingTypes : Type}.
Variable mIndex : string.
Variable id : Z.

Local Abbreviation index := (mappingIndex_t MappingTypes).

(** The object the loop builds when it stops at a record named [n]. *)
Lemma name_obj_eq n :
  push_back (VARR [])
    (push_back_pair
       (push_back_pair
          (push_back_pair (VOBJ []) (Pair "mapping-name" (VSTR n)))
          (Pair "exists" (VBOOL true)))
       (Pair "mapping-index" (VSTR mIndex))) = name_reply n mIndex.
Proof. reflexivity. Qed.

Lemma name_loop_skip (pre rest : index) m :
  (forall e, In e pre -> fst e <> id) ->
  name_loop mIndex id (pre ++ rest) m = name_loop mIndex id rest m.
Proof.
  induction pre as [|it pre IH]; intros Hpre; simpl; [reflexivity|].
  destruct (Z.eqb_spec (fst it) id) as [He|He].
  - exfalso. apply (Hpre it); [left; reflexivity | exact He].
  - apply IH. intros e Hin. apply Hpre. right. exact Hin.
Qed.

Lemma name_loop_absent (idx : index) m :
  ~ In id (keys idx) -> name_loop mIndex id idx m = (m, false).
Proof.
  intros Hnin. rewrite <- (app_nil_r idx), name_loop_skip; [reflexivity|].
  intros e Hin Heq. apply Hnin. rewrite <- Heq.
  unfold keys. apply in_map. exact Hin.
Qed.

Lemma name_loop_found_flag (idx : index) m :
  snd (name_loop mIndex id idx m) = true <-> In id (keys idx).
Proof.
  induction idx as [|it rest IH]; simpl.
  - split; [discriminate | intros []].
  - destruct (Z.eqb_spec (fst it) id) as [He|He]; simpl.
    + split; auto.
    + rewrite IH. split; [auto | intros [H|H]; [contradiction | exact H]].
Qed.

(** On a well-formed index the loop stops at the one record filed under
    [id]. *)
Lemma name_loop_found lo (idx : index) r m :
  ascending lo (keys idx) = true ->
  In (id, r) idx ->
  name_loop mIndex id idx m =
    (push_back_pair
       (push_back_pair
          (push_back_pair m (Pair "mapping-name" (VSTR (sName r))))
          (Pair "exists" (VBOOL true)))
       (Pair "mapping-index" (VSTR mIndex)), true).
Proof.
  revert lo. induction idx as [|[k v] rest IH]; intros lo Ha Hin; [destruct Hin|].
  cbn [keys map fst] in Ha. simpl in Ha.
  apply andb_true_iff in Ha. destruct Ha as [_ Hrest].
  fold (keys rest) in Hrest.
  cbn [name_loop fst snd].
  destruct (Z.eqb_spec k id) as [He|He].
  - destruct Hin as [Hin|Hin].
    + injection Hin as _ Hv. subst v. reflexivity.
    + exfalso. assert (Hk : In id (keys rest)).
      { unfold keys. change id with (fst (id, r)). apply in_map. exact Hin. }
      pose proof (ascending_lower _ _ _ Hrest Hk). lia.
  - destruct Hin as [Hin|Hin].
    + injection Hin as Hk _. contradiction.
    + apply (IH (k + 1)); assumption.
Qed.

End NameLoopFacts.

Section AscendingFacts.

Lemma ascending_app lo (l1 l2 : list Z) k :
  ascending lo (l1 ++ k :: l2) = true ->
  (forall n, In n l1 -> n < k) /\ (forall n, In n l2 -> k < n).
Proof.
  revert lo. induction l1 as [|a l1 IH]; intros lo Ha; simpl in Ha;
    apply andb_true_iff in Ha; destruct Ha as [Hlo Ht].
  - split; [intros ? [] |].
    intros n Hn. pose proof (ascending_lower _ _ _ Ht Hn). lia.
  - destruct (IH _ Ht) as [H1 H2]. split; [|exact H2].
    intros n [Hn|Hn]; [|apply H1; exact Hn].
    subst n. assert (Hk : In k (l1 ++ k :: l2)) by (apply in_elt).
    pose proof (ascending_lower _ _ _ Ht Hk). lia.
Qed.

End AscendingFacts.

(** * The claims about the handlers *)

Section Claims.

Context {MappingTypes : Type}.
Variable FromTypeName : string -> MappingTypes.
Variable ToTypeName : MappingTypes -> string.
Context {Store : Type}.
Variable Read : Store -> MappingTypes -> option (mappingIndex_t MappingTypes).
Variable Save : Store -> CMapping MappingTypes -> bool * Store.

Local Abbreviation getid := (getmappingid FromTypeName ToTypeName Read Save).
Local Abbreviation getname := (getmappingname FromTypeName ToTypeName Read).

Variable w : World MappingTypes Store.
Variable mIndex : string.

(** ** Errors raised before the index is scanned *)

(** C6. A token that the catalog does not give back unchanged
    ([ToTypeName (FromTypeName mIndex)] differs from [mIndex]) makes both
    handlers fail with InvalidMappingType, and the world is left as it
    was: the store is not changed and not even read. *)
Theorem invalid_type_rejected (name : string) (id : Z) :
  ToTypeName (FromTypeName mIndex) <> mIndex ->
  getid mIndex name w = (Throw InvalidMappingType, w) /\
  getname mIndex id w = (Throw InvalidMappingType, w).
Proof.
  intros Hbad. apply String.eqb_neq in Hbad.
  unfold getmappingid, getmappingname. rewrite Hbad. split; reflexivity.
Qed.

(** C7. For a valid token whose index the store cannot load, both
    handlers fail with IndexUnavailable; the store is unchanged and the
    only call made on it is the read that failed, so no index is created
    or written. *)
Theorem missing_index_is_fatal (name : string) (id : Z) :
  ToTypeName (FromTypeName mIndex) = mIndex ->
  Read (db w) (FromTypeName mIndex) = None ->
  getid mIndex name w =
    (Throw IndexUnavailable,
     {| db := db w; ops := ops w ++ [DbRead (FromTypeName mIndex)] |}) /\
  getname mIndex id w =
    (Throw IndexUnavailable,
     {| db := db w; ops := ops w ++ [DbRead (FromTypeName mIndex)] |}).
Proof.
  intros Hvalid Hnone.
  unfold getmappingid, getmappingname.
  rewrite Hvalid, String.eqb_refl. cbn [negb].
  unfold bind, dbRead. cbv beta iota. rewrite Hnone. split; reflexivity.
Qed.

(** ** On a loaded index *)

Variable idx : mappingIndex_t MappingTypes.
Hypothesis Hvalid : ToTypeName (FromTypeName mIndex) = mIndex.
Hypothesis Hread : Read (db w) (FromTypeName mIndex) = Some idx.

(** [getmappingid] when the scan meets [r] as the first record that has
    the name. *)
Lemma getmappingid_first_match (name : string) pre k r post :
  idx = pre ++ (k, r) :: post ->
  (forall e, In e pre -> sName (snd e) <> name) ->
  sName r = name ->
  getid mIndex name w =
    (Return (id_reply (nId r) true mIndex),
     {| db := db w; ops := ops w ++ [DbRead (FromTypeName mIndex)] |}).
Proof.
  intros Hsplit Hpre Hr.
  destruct (fold_first_match mIndex name pre post k r scan_init eq_refl Hpre Hr)
    as [Hf Hm].
  rewrite <- Hsplit in Hf, Hm. fold (scan mIndex name idx) in Hf, Hm.
  rewrite (getmappingid_found FromTypeName ToTypeName Read Save
             w mIndex name idx Hvalid Hread Hf).
  rewrite Hm. reflexivity.
Qed.

(** [getmappingname] in terms of its loop. *)
Lemma getmappingname_loaded (id : Z) :
  getname mIndex id w =
    let '(m, found) := name_loop mIndex id idx (VOBJ []) in
    ((if negb found then Throw MappingNotFound
      else Return (push_back (VARR []) m)),
     {| db := db w; ops := ops w ++ [DbRead (FromTypeName mIndex)] |}).
Proof.
  unfold getmappingname. rewrite Hvalid, String.eqb_refl. cbn [negb].
  unfold bind, dbRead. cbv beta iota. rewrite Hread.
  destruct (name_loop mIndex id idx (VOBJ [])) as [m found].
  destruct found; reflexivity.
Qed.

(** [getmappingname] asked for the key of a record of a well-formed index. *)
Lemma getmappingname_at_key (id : Z) r :
  wf_index idx = true ->
  In (id, r) idx ->
  getname mIndex id w =
    (Return (name_reply (sName r) mIndex),
     {| db := db w; ops := ops w ++ [DbRead (FromTypeName mIndex)] |}).
Proof.
  intros Hwf Hin. rewrite getmappingname_loaded.
  unfold wf_index in Hwf.
  apply andb_true_iff in Hwf. destruct Hwf as [Ha _].
  rewrite (name_loop_found mIndex id 0 idx r (VOBJ []) Ha Hin).
  reflexivity.
Qed.

(** C1. When the name is not in the index, the id that [getmappingid]
    hands out is the smallest non-negative integer that is not a key of
    the index, as long as the index leaves one of the 2^32 keys free; so
    it is 2 when the keys are 0, 1 and 3, and it is the size of the index
    when the keys are 0, 1, ..., size - 1. *)
Theorem allocates_first_free_slot (name : string) :
  wf_index idx = true ->
  Z.of_nat (List.length idx) < UINT32_MOD ->
  (forall e, In e idx -> sName (snd e) <> name) ->
  exists id,
    fst (getid mIndex name w) = Return (id_reply id false mIndex) /\
    first_free (keys idx) id /\
    (keys idx = [0; 1; 3] -> id = 2) /\
    (keys idx = iota 0 (List.length idx) -> id = Z.of_nat (List.length idx)).
Proof.
  intros Hwf Hlen Hno.
  destruct (scan_absent mIndex name idx Hno) as [Hf Hm].
  pose proof (scan_first_free mIndex name idx Hwf Hlen) as Hfree.
  exists (nFirstIndexFree (scan mIndex name idx)).
  rewrite (getmappingid_created FromTypeName ToTypeName Read Save
             w mIndex name idx Hvalid Hread Hf Hm).
  split; [reflexivity|]. split; [exact Hfree|]. split.
  - intros Hk. rewrite Hk in Hfree.
    exact (first_free_unique _ _ _ Hfree first_free_013).
  - intros Hk. rewrite Hk in Hfree.
    exact (first_free_unique _ _ _ Hfree (first_free_iota _)).
Qed.

(** C4. When some record of the index has the requested name,
    [getmappingid] returns the [nId] of such a record with "exists" true
    (that is, created = false); the store is unchanged and the only call
    made on it is the read, so nothing is written. *)
Theorem found_name_is_not_written (name : string) :
  (exists e, In e idx /\ sName (snd e) = name) ->
  exists k r,
    In (k, r) idx /\ sName r = name /\
    getid mIndex name w =
      (Return (id_reply (nId r) true mIndex),
       {| db := db w; ops := ops w ++ [DbRead (FromTypeName mIndex)] |}).
Proof.
  intros Hex.
  destruct (first_match_split name idx Hex) as (pre & k & r & post & Hsplit & Hpre & Hr).
  exists k, r. split; [|split; [exact Hr|]].
  - rewrite Hsplit. apply in_elt.
  - exact (getmappingid_first_match name pre k r post Hsplit Hpre Hr).
Qed.

(** C5. When no record of the index has the requested name,
    [getmappingid] makes one call of [Save], after the read, with the
    record whose [nId] is the free slot the scan ended on, whose type is
    the type of the token, whose name is the requested name and whose
    version is 1; it returns that id with "exists" false (created = true).
    On a well-formed index that leaves a key free, that slot is the
    smallest non-negative integer that is not a key. *)
Theorem absent_name_is_saved_once (name : string) :
  (forall e, In e idx -> sName (snd e) <> name) ->
  let cm := {| nMType := FromTypeName mIndex;
               nId := nFirstIndexFree (scan mIndex name idx);
               sName := name;
               nVersion := 1 |} in
  getid mIndex name w =
    (Return (id_reply (nId cm) false mIndex),
     {| db := snd (Save (db w) cm);
        ops := ops w ++ [DbRead (FromTypeName mIndex); DbSave cm] |}) /\
  (wf_index idx = true -> Z.of_nat (List.length idx) < UINT32_MOD ->
   first_free (keys idx) (nId cm)).
Proof.
  intros Hno cm.
  destruct (scan_absent mIndex name idx Hno) as [Hf Hm].
  split.
  - exact (getmappingid_created FromTypeName ToTypeName Read Save
             w mIndex name idx Hvalid Hread Hf Hm).
  - intros Hwf Hlen. exact (scan_first_free mIndex name idx Hwf Hlen).
Qed.

(** C8. [getmappingname] returns the name of the record filed under the
    requested id, with "exists" true, when the index has such a record;
    it fails with MappingNotFound exactly when no record is filed under
    that id; either way the store is unchanged and the only call made on
    it is the read. *)
Theorem resolves_by_key (id : Z) :
  (forall r, wf_index idx = true -> In (id, r) idx ->
     fst (getname mIndex id w) = Return (name_reply (sName r) mIndex)) /\
  (fst (getname mIndex id w) = Throw MappingNotFound <-> ~ In id (keys idx)) /\
  snd (getname mIndex id w) =
    {| db := db w; ops := ops w ++ [DbRead (FromTypeName mIndex)] |}.
Proof.
  split; [|split].
  - intros r Hwf Hin. rewrite (getmappingname_at_key id r Hwf Hin). reflexivity.
  - rewrite getmappingname_loaded.
    pose proof (name_loop_found_flag mIndex id idx (VOBJ [])) as Hflag.
    destruct (name_loop mIndex id idx (VOBJ [])) as [m found].
    simpl in Hflag. destruct found; simpl.
    + split; [discriminate|]. intros Hnin. exfalso. apply Hnin, Hflag. reflexivity.
    + split; [|reflexivity]. intros _ Hin. apply Hflag in Hin. discriminate.
  - rewrite getmappingname_loaded.
    destruct (name_loop mIndex id idx (VOBJ [])) as [m found]. reflexivity.
Qed.

(** C9. When several records of the index have the requested name,
    [getmappingid] returns the id of the one the scan meets first, which
    on a well-formed index is the one with the smallest key: whatever
    follows that record, matching or not, the reply is the same. *)
Theorem first_duplicate_wins (name : string) pre k r post :
  idx = pre ++ (k, r) :: post ->
  (forall e, In e pre -> sName (snd e) <> name) ->
  sName r = name ->
  fst (getid mIndex name w) = Return (id_reply (nId r) true mIndex) /\
  (wf_index idx = true ->
   forall k' r', In (k', r') idx -> sName r' = name -> k <= k').
Proof.
  intros Hsplit Hpre Hr.
  split.
  - rewrite (getmappingid_first_match name pre k r post Hsplit Hpre Hr).
    reflexivity.
  - intros Hwf k' r' Hin Hr'. unfold wf_index in Hwf.
    apply andb_true_iff in Hwf. destruct Hwf as [Ha _].
    rewrite Hsplit in Ha, Hin. unfold keys in Ha.
    rewrite map_app in Ha. cbn [map fst] in Ha.
    destruct (ascending_app _ _ _ _ Ha) as [_ Hpost].
    apply in_app_or in Hin. destruct Hin as [Hin|[Hin|Hin]].
    + exfalso. apply (Hpre _ Hin). exact Hr'.
    + injection Hin as Hk _. lia.
    + assert (Hk : In k' (map fst post)).
      { change k' with (fst (k', r')). apply in_map. exact Hin. }
      specialize (Hpost _ Hk). lia.
Qed.

(** C10. In the found case [getmappingid] returns the field [nId] of the
    first record that has the name, not the key the record is filed
    under, whereas [getmappingname] and the search for the free slot go by
    the keys: asked for the key, [getmappingname] gives the record's name,
    and two indexes with the same keys have the same free slot. So when
    the field differs from the key, the id returned is not the key. *)
Theorem found_id_is_stored_field (name : string) pre k r post :
  idx = pre ++ (k, r) :: post ->
  (forall e, In e pre -> sName (snd e) <> name) ->
  sName r = name ->
  wf_index idx = true ->
  fst (getid mIndex name w) = Return (id_reply (nId r) true mIndex) /\
  fst (getname mIndex k w) = Return (name_reply name mIndex) /\
  (forall (idx' : mappingIndex_t MappingTypes) name', keys idx' = keys idx ->
     nFirstIndexFree (scan mIndex name' idx') =
     nFirstIndexFree (scan mIndex name idx)) /\
  (nId r <> k ->
   fst (getid mIndex name w) <> Return (id_reply k true mIndex)).
Proof.
  intros Hsplit Hpre Hr Hwf.
  assert (Hid : fst (getid mIndex name w) = Return (id_reply (nId r) true mIndex)).
  { rewrite (getmappingid_first_match name pre k r post Hsplit Hpre Hr).
    reflexivity. }
  split; [exact Hid|]. split; [|split].
  - assert (Hin : In (k, r) idx) by (rewrite Hsplit; apply in_elt).
    rewrite (getmappingname_at_key k r Hwf Hin), Hr. reflexivity.
  - intros idx' name' Hk. unfold scan.
    apply fold_free_keys; auto.
  - intros Hne. rewrite Hid. intros Heq. apply Hne.
    unfold id_reply in Heq. congruence.
Qed.

End Claims.

(** * Two calls in a row, on the in-memory store *)

Section MemStoreFacts.

Context {MappingTypes : Type}.
Variable MType_eq_dec : forall a b : MappingTypes, {a = b} + {a <> b}.

Local Abbreviation index := (mappingIndex_t MappingTypes).

(** The inserted entry comes after entries of the old index with smaller
    keys only. *)
Lemma index_insert_split k v (idx : index) :
  exists pre post,
    index_insert k v idx = pre ++ (k, v) :: post /\
    (forall e, In e pre -> In e idx /\ fst e < k).
Proof.
  induction idx as [|[k' v'] rest IH]; simpl.
  - exists [], []. split; [reflexivity | intros ? []].
  - destruct (Z.ltb_spec k k') as [Hlt|Hge].
    + exists [], ((k', v') :: rest). split; [reflexivity | intros ? []].
    + destruct (Z.eqb_spec k k') as [Heq|Hne].
      * exists [], rest. split; [reflexivity | intros ? []].
      * destruct IH as (pre & post & Hins & Hpre).
        exists ((k', v') :: pre), post. split.
        -- rewrite Hins. reflexivity.
        -- intros e [He|He].
           ++ subst e. simpl. split; [left; reflexivity | lia].
           ++ destruct (Hpre e He) as [Hin Hlt]. split; [right; exact Hin | exact Hlt].
Qed.

(** A record saved into a namespace that has an index is in the index
    that is read back. *)
Lemma mem_Read_Save (st : MemStore) cm (idx : index) :
  mem_Read st (nMType cm) = Some idx ->
  mem_Read (snd (mem_Save MType_eq_dec st cm)) (nMType cm) =
    Some (index_insert (nId cm) cm idx).
Proof.
  unfold mem_Read, mem_Save. intros Hst. rewrite Hst. simpl.
  destruct (MType_eq_dec (nMType cm) (nMType cm)) as [_|Hne];
    [reflexivity | contradiction].
Qed.

Lemma name_in_or_out (name : string) (idx : index) :
  (exists e, In e idx /\ sName (snd e) = name) \/
  (forall e, In e idx -> sName (snd e) <> name).
Proof.
  induction idx as [|it rest IH].
  - right. intros ? [].
  - destruct (String.eqb_spec (sName (snd it)) name) as [He|He].
    + left. exists it. split; [left; reflexivity | exact He].
    + destruct IH as [(e & Hin & Hn)|Hno].
      * left. exists e. split; [right; exact Hin | exact Hn].
      * right. intros e [Hin|Hin]; [subst e; exact He | apply Hno; exact Hin].
Qed.

Lemma keyed_by_id_In (idx : index) k r :
  keyed_by_id idx = true -> In (k, r) idx -> k = nId r.
Proof.
  unfold keyed_by_id. intros Hall Hin.
  rewrite forallb_forall in Hall. specialize (Hall _ Hin).
  apply Z.eqb_eq in Hall. exact Hall.
Qed.

(** Filing a record under its own id keeps the index well-formed and keyed
    by id: ids stay pairwise distinct. *)
Lemma index_insert_keyed (idx : index) v :
  keyed_by_id idx = true ->
  keyed_by_id (index_insert (nId v) v idx) = true.
Proof.
  unfold keyed_by_id. induction idx as [|[k' v'] rest IH]; simpl; intros Hall.
  - rewrite Z.eqb_refl. reflexivity.
  - apply andb_true_iff in Hall. destruct Hall as [Hk Hrest].
    destruct (nId v <? k'); [|destruct (nId v =? k')]; simpl;
      rewrite ?Z.eqb_refl, ?Hk, ?Hrest, ?IH; auto.
Qed.

Lemma index_insert_ascending lo (idx : index) k v :
  ascending lo (keys idx) = true ->
  lo <= k ->
  ascending lo (keys (index_insert k v idx)) = true.
Proof.
  revert lo. induction idx as [|[k' v'] rest IH]; intros lo Ha Hlo.
  - simpl. rewrite (proj2 (Z.leb_le _ _) Hlo). reflexivity.
  - cbn [keys map fst] in Ha. simpl in Ha.
    apply andb_true_iff in Ha. destruct Ha as [Hlo' Hrest].
    fold (keys rest) in Hrest. apply Z.leb_le in Hlo'.
    cbn [index_insert].
    destruct (Z.ltb_spec k k') as [Hlt|Hge].
    + cbn [keys map fst]. simpl. fold (keys rest).
      rewrite (proj2 (Z.leb_le _ _) Hlo), Hrest.
      rewrite (proj2 (Z.leb_le (k + 1) k')); [reflexivity | lia].
    + destruct (Z.eqb_spec k k') as [Heq|Hne].
      * subst k'. cbn [keys map fst]. simpl. fold (keys rest).
        rewrite (proj2 (Z.leb_le _ _) Hlo), Hrest. reflexivity.
      * cbn [keys map fst]. simpl. fold (keys (index_insert k v rest)).
        rewrite (proj2 (Z.leb_le _ _) Hlo'). simpl.
        apply IH; [exact Hrest | lia].
Qed.

Lemma index_insert_bounded (idx : index) k v :
  forallb (fun k => k <? UINT32_MOD) (keys idx) = true ->
  k < UINT32_MOD ->
  forallb (fun k => k <? UINT32_MOD) (keys (index_insert k v idx)) = true.
Proof.
  intros Hb Hk. apply Z.ltb_lt in Hk.
  induction idx as [|[k' v'] rest IH]; simpl.
  - rewrite Hk. reflexivity.
  - cbn [keys map fst] in Hb. simpl in Hb.
    apply andb_true_iff in Hb. destruct Hb as [Hk' Hrest].
    destruct (k <? k'); [|destruct (k =? k')]; cbn [keys map fst forallb];
      fold (keys rest); rewrite ?Hk, ?Hk', ?Hrest; simpl; auto.
Qed.

Lemma index_insert_wf (idx : index) k v :
  wf_index idx = true ->
  0 <= k < UINT32_MOD ->
  wf_index (index_insert k v idx) = true.
Proof.
  unfold wf_index. intros Hwf Hk.
  apply andb_true_iff in Hwf. destruct Hwf as [Ha Hb].
  apply andb_true_iff. split.
  - apply index_insert_ascending; [exact Ha | lia].
  - apply index_insert_bounded; [exact Hb | lia].
Qed.

Variable FromTypeName : string -> MappingTypes.
Variable ToTypeName : MappingTypes -> string.

Local Abbreviation getid :=
  (getmappingid FromTypeName ToTypeName mem_Read (mem_Save MType_eq_dec)).
Local Abbreviation getname :=
  (getmappingname FromTypeName ToTypeName (Store := MemStore) mem_Read).

Variable w : World MappingTypes (@MemStore MappingTypes).
Variables mIndex name : string.
Variable idx : index.
Hypothesis Hvalid : ToTypeName (FromTypeName mIndex) = mIndex.
Hypothesis Hread : mem_Read (db w) (FromTypeName mIndex) = Some idx.

(** The world a creating call leaves behind, and what is read from it. *)
Lemma created_then_read :
  (forall e, In e idx -> sName (snd e) <> name) ->
  exists cm w1 pre post,
    getid mIndex name w = (Return (id_reply (nId cm) false mIndex), w1) /\
    sName cm = name /\
    mem_Read (db w1) (FromTypeName mIndex) = Some (pre ++ (nId cm, cm) :: post) /\
    (forall e, In e pre -> In e idx /\ fst e < nId cm).
Proof.
  intros Hno.
  destruct (scan_absent mIndex name idx Hno) as [Hf Hm].
  pose proof (getmappingid_created FromTypeName ToTypeName mem_Read
                (mem_Save MType_eq_dec) w mIndex name idx Hvalid Hread Hf Hm) as Hrun.
  cbv zeta in Hrun.
  set (cm := {| nMType := FromTypeName mIndex;
                nId := nFirstIndexFree (scan mIndex name idx);
                sName := name;
                nVersion := 1 |}) in *.
  destruct (index_insert_split (nId cm) cm idx) as (pre & post & Hins & Hpre).
  eexists cm, _, pre, post. split; [exact Hrun|]. split; [reflexivity|].
  split; [|exact Hpre].
  cbn [db]. rewrite <- Hins.
  apply (mem_Read_Save (db w) cm idx). exact Hread.
Qed.

(** A creating call leaves an index that is again well-formed and keyed by
    id. *)
Lemma created_index_invariants :
  (forall e, In e idx -> sName (snd e) <> name) ->
  wf_index idx = true ->
  keyed_by_id idx = true ->
  exists idx1,
    mem_Read (db (snd (getid mIndex name w))) (FromTypeName mIndex) = Some idx1 /\
    wf_index idx1 = true /\ keyed_by_id idx1 = true.
Proof.
  intros Hno Hwf Hkeyed.
  destruct (scan_absent mIndex name idx Hno) as [Hf Hm].
  rewrite (getmappingid_created FromTypeName ToTypeName mem_Read
             (mem_Save MType_eq_dec) w mIndex name idx Hvalid Hread Hf Hm).
  cbv zeta. cbn [snd db].
  set (cm := {| nMType := FromTypeName mIndex;
                nId := nFirstIndexFree (scan mIndex name idx);
                sName := name;
                nVersion := 1 |}).
  exists (index_insert (nId cm) cm idx). split; [|split].
  - apply (mem_Read_Save (db w) cm idx). exact Hread.
  - apply index_insert_wf; [exact Hwf|]. apply scan_slot_range.
  - apply index_insert_keyed. exact Hkeyed.
Qed.

(** C2. On a store whose index for the token is loadable, well-formed and
    keyed by the records' ids, the id that [getmappingid] returns for a
    name resolves, through [getmappingname] run on the world the first
    call leaves, to that same name. *)
Theorem id_resolves_to_name :
  wf_index idx = true ->
  keyed_by_id idx = true ->
  exists id ex w1,
    getid mIndex name w = (Return (id_reply id ex mIndex), w1) /\
    fst (getname mIndex id w1) = Return (name_reply name mIndex).
Proof.
  intros Hwf Hkeyed.
  destruct (name_in_or_out name idx) as [Hex|Hno].
  - destruct (first_match_split name idx Hex)
      as (pre & k & r & post & Hsplit & Hpre & Hr).
    pose proof (getmappingid_first_match FromTypeName ToTypeName mem_Read
                  (mem_Save MType_eq_dec) w mIndex idx Hvalid Hread
                  name pre k r post Hsplit Hpre Hr) as Hrun.
    eexists (nId r), true, _. split; [exact Hrun|].
    assert (Hin : In (nId r, r) idx).
    { assert (Hin : In (k, r) idx) by (rewrite Hsplit; apply in_elt).
      rewrite <- (keyed_by_id_In idx k r Hkeyed Hin). exact Hin. }
    rewrite (getmappingname_at_key FromTypeName ToTypeName mem_Read
               {| db := db w; ops := ops w ++ [DbRead (FromTypeName mIndex)] |}
               mIndex idx Hvalid Hread (nId r) r Hwf Hin).
    rewrite Hr. reflexivity.
  - destruct (created_then_read Hno)
      as (cm & w1 & pre & post & Hrun & Hcm & Hread1 & Hpre).
    exists (nId cm), false, w1. split; [exact Hrun|].
    rewrite (getmappingname_loaded FromTypeName ToTypeName mem_Read
               w1 mIndex _ Hvalid Hread1 (nId cm)).
    rewrite name_loop_skip.
    + cbn [name_loop fst snd]. rewrite Z.eqb_refl, Hcm. reflexivity.
    + intros e He. destruct (Hpre e He). lia.
Qed.

(** C3, as amended. Two calls of [getmappingid] with the same token and
    name, the second on the world the first leaves, return the same id,
    and the second reports "exists" true (created = false); the first
    reports "exists" false (created = true) exactly when no record of the
    index had the name before it. *)
Theorem second_call_finds_same_id :
  exists id ex w1,
    getid mIndex name w = (Return (id_reply id ex mIndex), w1) /\
    fst (getid mIndex name w1) = Return (id_reply id true mIndex) /\
    (ex = false <-> forall e, In e idx -> sName (snd e) <> name).
Proof.
  destruct (name_in_or_out name idx) as [Hex|Hno].
  - destruct (first_match_split name idx Hex)
      as (pre & k & r & post & Hsplit & Hpre & Hr).
    pose proof (getmappingid_first_match FromTypeName ToTypeName mem_Read
                  (mem_Save MType_eq_dec) w mIndex idx Hvalid Hread
                  name pre k r post Hsplit Hpre Hr) as Hrun.
    eexists (nId r), true, _. split; [exact Hrun|]. split.
    + rewrite (getmappingid_first_match FromTypeName ToTypeName mem_Read
                 (mem_Save MType_eq_dec)
                 {| db := db w; ops := ops w ++ [DbRead (FromTypeName mIndex)] |}
                 mIndex idx Hvalid Hread
                 name pre k r post Hsplit Hpre Hr).
      reflexivity.
    + split; [discriminate|]. intros Hno. exfalso.
      destruct Hex as (e & Hin & He). exact (Hno e Hin He).
  - destruct (created_then_read Hno)
      as (cm & w1 & pre & post & Hrun & Hcm & Hread1 & Hpre).
    exists (nId cm), false, w1. split; [exact Hrun|]. split.
    + rewrite (getmappingid_first_match FromTypeName ToTypeName mem_Read
                 (mem_Save MType_eq_dec) w1 mIndex _ Hvalid Hread1
                 name pre (nId cm) cm post eq_refl); [reflexivity| |exact Hcm].
      intros e He. destruct (Hpre e He) as [Hin _]. exact (Hno e Hin).
    + split; [intros _; exact Hno | reflexivity].
Qed.

End MemStoreFacts.

(** * The handlers run on the sample catalog *)

Section Runs.

Import Sample.

Local Abbreviation save := (mem_Save MType_eq_dec).
Local Abbreviation ToFrom s := (ToTypeName (FromTypeName s)).

(** With the keys 0, 1 and 3 taken, a new name gets the id 2. *)
Lemma allocates_first_free_slot_witness :
  fst (getid "sport" "Rugby" (world_of idx013)) = Return (id_reply 2 false "sport").
Proof.
  destruct (allocates_first_free_slot FromTypeName ToTypeName mem_Read save
              (world_of idx013) "sport" idx013 eq_refl eq_refl "Rugby")
    as (id & Hrun & _ & H013 & _).
  - reflexivity.
  - reflexivity.
  - intros e [<-|[<-|[<-|[]]]]; discriminate.
  - unfold getid. rewrite Hrun, (H013 eq_refl). reflexivity.
Defined.

(** A name that is there is found without a write. *)
Lemma found_name_is_not_written_witness :
  exists k r,
    In (k, r) idx01 /\ sName r = "Tennis"%string /\
    getid "sport" "Tennis" (world_of idx01) =
      (Return (id_reply (nId r) true "sport"),
       {| db := store_of idx01; ops := [DbRead sportMapping] |}).
Proof.
  apply (found_name_is_not_written FromTypeName ToTypeName mem_Read save
           (world_of idx01) "sport" idx01 eq_refl eq_refl "Tennis").
  exists (1, rec 1 "Tennis"). split; [right; left; reflexivity | reflexivity].
Defined.

(** A new name is saved once, under the free slot. *)
Lemma absent_name_is_saved_once_witness :
  ops (snd (getid "sport" "Rugby" (world_of idx013))) =
    [DbRead sportMapping;
     DbSave {| nMType := sportMapping; nId := 2; sName := "Rugby"; nVersion := 1 |}].
Proof.
  destruct (absent_name_is_saved_once FromTypeName ToTypeName mem_Read save
              (world_of idx013) "sport" idx013 eq_refl eq_refl "Rugby")
    as [Hrun _].
  - intros e [<-|[<-|[<-|[]]]]; discriminate.
  - unfold getid. rewrite Hrun. reflexivity.
Defined.

(** A token outside the catalog is refused by both handlers. *)
Lemma invalid_type_rejected_witness :
  getid "not-a-real-type" "x" (world_of idx01) =
    (Throw InvalidMappingType, world_of idx01) /\
  getname "not-a-real-type" 0 (world_of idx01) =
    (Throw InvalidMappingType, world_of idx01).
Proof.
  apply (invalid_type_rejected FromTypeName ToTypeName mem_Read save
           (world_of idx01) "not-a-real-type" "x" 0).
  intros H. vm_compute in H. discriminate H.
Defined.

(** A namespace without an index is refused by both handlers. *)
Lemma missing_index_is_fatal_witness :
  getid "team" "x" (world_of idx01) =
    (Throw IndexUnavailable,
     {| db := store_of idx01; ops := [DbRead teamMapping] |}) /\
  getname "team" 0 (world_of idx01) =
    (Throw IndexUnavailable,
     {| db := store_of idx01; ops := [DbRead teamMapping] |}).
Proof.
  apply (missing_index_is_fatal FromTypeName ToTypeName mem_Read save
           (world_of idx01) "team" "x" 0); reflexivity.
Defined.

(** With the keys 0 and 1, the id 1 resolves and the id 5 does not. *)
Lemma resolves_by_key_witness :
  fst (getname "sport" 1 (world_of idx01)) = Return (name_reply "Tennis" "sport") /\
  fst (getname "sport" 5 (world_of idx01)) = Throw MappingNotFound.
Proof.
  split.
  - destruct (resolves_by_key FromTypeName ToTypeName mem_Read
                (world_of idx01) "sport" idx01 eq_refl eq_refl 1) as [Hres _].
    apply (Hres (rec 1 "Tennis")); [reflexivity | right; left; reflexivity].
  - destruct (resolves_by_key FromTypeName ToTypeName mem_Read
                (world_of idx01) "sport" idx01 eq_refl eq_refl 5) as (_ & Hnf & _).
    apply Hnf. simpl. intros [H|[H|[]]]; discriminate H.
Defined.

(** Of two records named alike, the one with the smaller key answers. *)
Lemma first_duplicate_wins_witness :
  fst (getid "sport" "Tennis" (world_of idx_dup)) = Return (id_reply 1 true "sport").
Proof.
  destruct (first_duplicate_wins FromTypeName ToTypeName mem_Read save
              (world_of idx_dup) "sport" idx_dup eq_refl eq_refl "Tennis"
              [(0, rec 0 "Football")] 1 (rec 1 "Tennis") [(2, rec 2 "Tennis")])
    as [Hrun _].
  - reflexivity.
  - intros e [<-|[]]; discriminate.
  - reflexivity.
  - exact Hrun.
Defined.

(** A record filed under key 1 with the [nId] 7 is reported as 7. *)
Lemma found_id_is_stored_field_witness :
  fst (getid "sport" "Tennis" (world_of idx_skew)) = Return (id_reply 7 true "sport") /\
  fst (getname "sport" 1 (world_of idx_skew)) = Return (name_reply "Tennis" "sport") /\
  fst (getid "sport" "Tennis" (world_of idx_skew)) <> Return (id_reply 1 true "sport").
Proof.
  destruct (found_id_is_stored_field FromTypeName ToTypeName mem_Read save
              (world_of idx_skew) "sport" idx_skew eq_refl eq_refl "Tennis"
              [(0, rec 0 "Football")] 1 (rec 7 "Tennis") [])
    as (Hid & Hname & _ & Hne).
  - reflexivity.
  - intros e [<-|[]]; discriminate.
  - reflexivity.
  - reflexivity.
  - split; [exact Hid|]. split; [exact Hname|].
    apply Hne. simpl. discriminate.
Defined.

(** A name created in the sport namespace resolves back. *)
Lemma id_resolves_to_name_witness :
  exists id ex w1,
    getid "sport" "Rugby" (world_of idx013) = (Return (id_reply id ex "sport"), w1) /\
    fst (getname "sport" id w1) = Return (name_reply "Rugby" "sport").
Proof.
  apply (id_resolves_to_name MType_eq_dec FromTypeName ToTypeName
           (world_of idx013) "sport" "Rugby" idx013); reflexivity.
Defined.

(** The same call twice: created, then found. *)
Lemma second_call_finds_same_id_witness :
  exists id ex w1,
    getid "sport" "Rugby" (world_of idx013) = (Return (id_reply id ex "sport"), w1) /\
    fst (getid "sport" "Rugby" w1) = Return (id_reply id true "sport") /\
    (ex = false <-> forall e, In e idx013 -> sName (snd e) <> "Rugby"%string).
Proof.
  apply (second_call_finds_same_id MType_eq_dec FromTypeName ToTypeName
           (world_of idx013) "sport" "Rugby" idx013); reflexivity.
Defined.

(** C3 as stated fails: "sport" is a valid token and its index loads, but
    for a name that is already in the index the first of the two calls
    reports "exists" true, that is created = false. *)
Lemma first_call_on_known_name_not_created :
  ToFrom "sport" = "sport"%string /\
  mem_Read (db (world_of idx01)) (FromTypeName "sport") = Some idx01 /\
  ~ (exists id w1,
       getid "sport" "Football" (world_of idx01) =
         (Return (id_reply id false "sport"), w1) /\
       fst (getid "sport" "Football" w1) = Return (id_reply id true "sport")).
Proof.
  split; [reflexivity|]. split; [reflexivity|].
  intros (id & w1 & Hfirst & _).
  vm_compute in Hfirst. discriminate Hfirst.
Qed.

(** The scenario of the design document, from an empty sport index:
    Football is created as 0 and then found as 0, Tennis is created as 1,
    and 1 resolves to Tennis. *)
Example sport_scenario :
  let w0 := world_of [] in
  let '(r1, w1) := getid "sport" "Football" w0 in
  let '(r2, w2) := getid "sport" "Football" w1 in
  let '(r3, w3) := getid "sport" "Tennis" w2 in
  let '(r4, w4) := getname "sport" 1 w3 in
  r1 = Return (id_reply 0 false "sport") /\
  r2 = Return (id_reply 0 true "sport") /\
  r3 = Return (id_reply 1 false "sport") /\
  r4 = Return (name_reply "Tennis" "sport") /\
  ops w4 = [DbRead sportMapping; DbSave (rec 0 "Football");
            DbRead sportMapping;
            DbRead sportMapping; DbSave (rec 1 "Tennis");
            DbRead sportMapping].
Proof. vm_compute. repeat split. Qed.

End Runs.

(** * More on the bodies of the handlers *)

Section BodyFacts.

Context {MappingTypes : Type}.
Variable FromTypeName : string -> MappingTypes.
Variable ToTypeName : MappingTypes -> string.
Context {Store : Type}.
Variable Read : Store -> MappingTypes -> option (mappingIndex_t MappingTypes).
Variable Save : Store -> CMapping MappingTypes -> bool * Store.

Local Abbreviation getid := (getmappingid FromTypeName ToTypeName Read Save).
Local Abbreviation getname := (getmappingname FromTypeName ToTypeName Read).
Local Abbreviation index := (mappingIndex_t MappingTypes).

(** The counter moves by at most one per entry. *)
Lemma fold_free_le (mIndex name : string) (idx : index) s :
  0 <= nFirstIndexFree s ->
  0 <= nFirstIndexFree (fold_left (scan_step mIndex name) idx s)
    <= nFirstIndexFree s + Z.of_nat (List.length idx).
Proof.
  revert s. induction idx as [|it rest IH]; intros s Hs.
  - simpl. lia.
  - cbn [fold_left List.length]. rewrite Nat2Z.inj_succ.
    assert (Hstep : 0 <= nFirstIndexFree (scan_step mIndex name s it)
                      <= nFirstIndexFree s + 1).
    { rewrite step_nFirstIndexFree.
      destruct (FirstIndexFreeFound s); [lia|].
      destruct (fst it =? nFirstIndexFree s); [|lia].
      unfold uint32_incr. split.
      - apply Z.mod_pos_bound. unfold UINT32_MOD. lia.
      - apply Z.mod_le; [lia | unfold UINT32_MOD; lia]. }
    specialize (IH (scan_step mIndex name s it) (proj1 Hstep)). lia.
Qed.

(** A well-formed index has at most 2^32 entries. *)
Lemma wf_index_size (idx : index) :
  wf_index idx = true -> Z.of_nat (List.length idx) <= UINT32_MOD.
Proof.
  intros Hwf. unfold wf_index in Hwf.
  apply andb_true_iff in Hwf. destruct Hwf as [Ha Hb].
  destruct idx as [|e rest]; [simpl; unfold UINT32_MOD; lia|].
  assert (Hne : keys (e :: rest) <> []) by discriminate.
  pose proof (ascending_room _ _ Ha Hb Hne) as Hroom.
  unfold keys in Hroom. rewrite length_map in Hroom. lia.
Qed.

(** The slot the scan ends on, on every well-formed index: the smallest
    non-negative integer that is not a key, reduced modulo 2^32. *)
Lemma scan_first_free_mod (mIndex name : string) (idx : index) :
  wf_index idx = true ->
  exists m,
    first_free (keys idx) m /\
    nFirstIndexFree (scan mIndex name idx) = m mod UINT32_MOD.
Proof.
  intros Hwf. pose proof (wf_index_size idx Hwf) as Hsize.
  destruct (Z.eq_dec (Z.of_nat (List.length idx)) UINT32_MOD) as [Hfull|Hroom].
  - exists UINT32_MOD. split.
    + unfold wf_index in Hwf.
      apply andb_true_iff in Hwf. destruct Hwf as [Ha Hb].
      split; [unfold UINT32_MOD; lia|]. split.
      * intros Hin. rewrite forallb_forall in Hb.
        specialize (Hb _ Hin). apply Z.ltb_lt in Hb. lia.
      * intros m Hm. apply (full_has_every_key 0 (keys idx) Ha Hb); [|lia].
        unfold keys. rewrite length_map. lia.
    + rewrite (scan_wraps_when_full mIndex name idx Hwf Hfull).
      symmetry. apply Z.mod_same. unfold UINT32_MOD. lia.
  - exists (nFirstIndexFree (scan mIndex name idx)). split.
    + apply scan_first_free; [exact Hwf | lia].
    + symmetry. apply Z.mod_small. apply scan_slot_range.
Qed.

(** The smallest free number does not go down when keys are added. *)
Lemma first_free_monotone (l l' : list Z) a b :
  incl l l' -> first_free l a -> first_free l' b -> a <= b.
Proof.
  intros Hincl (_ & _ & Hall) (Hb0 & Hnin & _).
  destruct (Z.le_gt_cases a b) as [Hle|Hgt]; [exact Hle|].
  exfalso. apply Hnin, Hincl, Hall. lia.
Qed.

Variable w : World MappingTypes Store.
Variables mIndex name : string.
Variable idx : index.
Hypothesis Hvalid : ToTypeName (FromTypeName mIndex) = mIndex.
Hypothesis Hread : Read (db w) (FromTypeName mIndex) = Some idx.

(** X1. On every well-formed index that does not hold the name, the id
    handed out is the smallest non-negative integer that is not a key,
    reduced modulo 2^32: the counter is 32 bits wide, so on an index that
    holds all 2^32 keys the id is 0. *)
Theorem allocation_is_first_free_mod_2_32 :
  wf_index idx = true ->
  (forall e, In e idx -> sName (snd e) <> name) ->
  exists id m,
    fst (getid mIndex name w) = Return (id_reply id false mIndex) /\
    first_free (keys idx) m /\
    id = m mod UINT32_MOD.
Proof.
  intros Hwf Hno.
  destruct (scan_absent mIndex name idx Hno) as [Hf Hm].
  destruct (scan_first_free_mod mIndex name idx Hwf) as (m & Hfree & Hmod).
  exists (nFirstIndexFree (scan mIndex name idx)), m.
  rewrite (getmappingid_created FromTypeName ToTypeName Read Save
             w mIndex name idx Hvalid Hread Hf Hm).
  split; [reflexivity|]. split; [exact Hfree | exact Hmod].
Qed.

(** X2. Whatever the index holds, the id handed out for a new name is a
    32-bit number and is at most the number of entries of the index. *)
Theorem allocated_id_bounds :
  (forall e, In e idx -> sName (snd e) <> name) ->
  exists id,
    fst (getid mIndex name w) = Return (id_reply id false mIndex) /\
    0 <= id < UINT32_MOD /\
    id <= Z.of_nat (List.length idx).
Proof.
  intros Hno.
  destruct (scan_absent mIndex name idx Hno) as [Hf Hm].
  exists (nFirstIndexFree (scan mIndex name idx)).
  rewrite (getmappingid_created FromTypeName ToTypeName Read Save
             w mIndex name idx Hvalid Hread Hf Hm).
  split; [reflexivity|]. split; [apply scan_slot_range|].
  unfold scan.
  pose proof (fold_free_le mIndex name idx scan_init) as Hle.
  simpl in Hle. lia.
Qed.

(** X3. The id that [getmappingid] is about to hand out for a new name is
    one that [getmappingname], asked in the same state, does not know:
    a new id never collides with an id that resolves. *)
Theorem fresh_id_is_unresolved :
  wf_index idx = true ->
  Z.of_nat (List.length idx) < UINT32_MOD ->
  (forall e, In e idx -> sName (snd e) <> name) ->
  exists id,
    fst (getid mIndex name w) = Return (id_reply id false mIndex) /\
    fst (getname mIndex id w) = Throw MappingNotFound.
Proof.
  intros Hwf Hlen Hno.
  destruct (scan_absent mIndex name idx Hno) as [Hf Hm].
  destruct (scan_first_free mIndex name idx Hwf Hlen) as (_ & Hnin & _).
  exists (nFirstIndexFree (scan mIndex name idx)).
  rewrite (getmappingid_created FromTypeName ToTypeName Read Save
             w mIndex name idx Hvalid Hread Hf Hm).
  split; [reflexivity|].
  rewrite (getmappingname_loaded FromTypeName ToTypeName Read
             w mIndex idx Hvalid Hread).
  rewrite (name_loop_absent mIndex _ idx (VOBJ []) Hnin). reflexivity.
Qed.

(** X4. On an index that is loaded and empty, every name is created with
    the id 0, saved once, and no id resolves. *)
Theorem empty_index_edge (id : Z) :
  idx = [] ->
  getid mIndex name w =
    (Return (id_reply 0 false mIndex),
     {| db := snd (Save (db w)
                     {| nMType := FromTypeName mIndex; nId := 0;
                        sName := name; nVersion := 1 |});
        ops := ops w ++
               [DbRead (FromTypeName mIndex);
                DbSave {| nMType := FromTypeName mIndex; nId := 0;
                          sName := name; nVersion := 1 |}] |}) /\
  fst (getname mIndex id w) = Throw MappingNotFound.
Proof.
  intros Hempty. split.
  - rewrite (getmappingid_created FromTypeName ToTypeName Read Save
               w mIndex name idx Hvalid Hread); subst idx; reflexivity.
  - rewrite (getmappingname_loaded FromTypeName ToTypeName Read
               w mIndex idx Hvalid Hread).
    subst idx. reflexivity.
Qed.

(** X5. Adding records never lowers the next id: if a second index, read
    for any token, holds every key of this one, the id handed out for a
    new name there is not smaller than the one handed out here. *)
Theorem next_id_never_decreases
        (w' : World MappingTypes Store) (mIndex' name' : string) (idx' : index) :
  ToTypeName (FromTypeName mIndex') = mIndex' ->
  Read (db w') (FromTypeName mIndex') = Some idx' ->
  wf_index idx = true -> Z.of_nat (List.length idx) < UINT32_MOD ->
  wf_index idx' = true -> Z.of_nat (List.length idx') < UINT32_MOD ->
  (forall e, In e idx -> sName (snd e) <> name) ->
  (forall e, In e idx' -> sName (snd e) <> name') ->
  incl (keys idx) (keys idx') ->
  exists id id',
    fst (getid mIndex name w) = Return (id_reply id false mIndex) /\
    fst (getid mIndex' name' w') = Return (id_reply id' false mIndex') /\
    id <= id'.
Proof.
  intros Hvalid' Hread' Hwf Hlen Hwf' Hlen' Hno Hno' Hincl.
  destruct (scan_absent mIndex name idx Hno) as [Hf Hm].
  destruct (scan_absent mIndex' name' idx' Hno') as [Hf' Hm'].
  exists (nFirstIndexFree (scan mIndex name idx)),
         (nFirstIndexFree (scan mIndex' name' idx')).
  rewrite (getmappingid_created FromTypeName ToTypeName Read Save
             w mIndex name idx Hvalid Hread Hf Hm).
  rewrite (getmappingid_created FromTypeName ToTypeName Read Save
             w' mIndex' name' idx' Hvalid' Hread' Hf' Hm').
  split; [reflexivity|]. split; [reflexivity|].
  apply (first_free_monotone (keys idx) (keys idx')); [exact Hincl | |].
  - apply scan_first_free; assumption.
  - apply scan_first_free; assumption.
Qed.


End BodyFacts.

(** * The handlers as the RPC server calls them *)

Section RpcFacts.

Context {MappingTypes : Type}.
Variable FromTypeName : string -> MappingTypes.
Variable ToTypeName : MappingTypes -> string.
Context {Store : Type}.
Variable Read : Store -> MappingTypes -> option (mappingIndex_t MappingTypes).
Variable Save : Store -> CMapping MappingTypes -> bool * Store.
Variables HelpExampleCli HelpExampleRpc : string -> string -> string.
Variable not_a_string : exn.
Variable stoi : string -> outcome Z.

Local Abbreviation getid := (getmappingid FromTypeName ToTypeName Read Save).
Local Abbreviation getname := (getmappingname FromTypeName ToTypeName Read).
Local Abbreviation rpc_getid :=
  (rpc_getmappingid FromTypeName ToTypeName Read Save
     HelpExampleCli HelpExampleRpc not_a_string).
Local Abbreviation rpc_getname :=
  (rpc_getmappingname FromTypeName ToTypeName Read
     HelpExampleCli HelpExampleRpc not_a_string stoi).
Local Abbreviation world := (World MappingTypes Store).

(** The ways a call of the body of [getmappingid] can end. *)
Lemma getmappingid_outcomes (w : world) (mIndex name : string) :
  getid mIndex name w = (Throw InvalidMappingType, w) \/
  getid mIndex name w =
    (Throw IndexUnavailable,
     {| db := db w; ops := ops w ++ [DbRead (FromTypeName mIndex)] |}) \/
  (exists v,
     getid mIndex name w =
       (Return v,
        {| db := db w; ops := ops w ++ [DbRead (FromTypeName mIndex)] |})) \/
  (exists v cm,
     getid mIndex name w =
       (Return v,
        {| db := snd (Save (db w) cm);
           ops := (ops w ++ [DbRead (FromTypeName mIndex)]) ++ [DbSave cm] |})).
Proof.
  unfold getmappingid.
  destruct (ToTypeName (FromTypeName mIndex) =? mIndex)%string; cbn [negb];
    [|left; reflexivity].
  right. unfold bind, dbRead. cbv beta iota.
  destruct (Read (db w) (FromTypeName mIndex)) as [idx|];
    [|left; reflexivity].
  right. destruct (mappingFound (scan mIndex name idx)); cbn [negb].
  - left. eexists. reflexivity.
  - right. eexists _, _. unfold dbSave, ret. cbv beta iota. reflexivity.
Qed.

(** The ways a call of the body of [getmappingname] can end. *)
Lemma getmappingname_outcomes (w : world) (mIndex : string) (id : Z) :
  snd (getname mIndex id w) = w \/
  snd (getname mIndex id w) =
    {| db := db w; ops := ops w ++ [DbRead (FromTypeName mIndex)] |}.
Proof.
  unfold getmappingname.
  destruct (ToTypeName (FromTypeName mIndex) =? mIndex)%string; cbn [negb];
    [|left; reflexivity].
  right. unfold bind, dbRead. cbv beta iota.
  destruct (Read (db w) (FromTypeName mIndex)) as [idx|]; [|reflexivity].
  destruct (name_loop mIndex id idx (VOBJ [])) as [m found].
  destruct found; reflexivity.
Qed.

Lemma bind_lift {A B} (o : outcome A) (k : A -> @RPC MappingTypes Store B) w :
  bind (lift o) k w =
    match o with
    | Return a => k a w
    | Throw e => (Throw e, w)
    end.
Proof. destruct o; reflexivity. Qed.

(** With two string arguments the handlers run their bodies on them;
    arguments past the second are not looked at. *)
Lemma rpc_getmappingid_decoded (w : world) mIndex name rest :
  rpc_getid (VSTR mIndex :: VSTR name :: rest) false w = getid mIndex name w.
Proof. reflexivity. Qed.

Lemma rpc_getmappingname_decoded (w : world) mIndex s n rest :
  stoi s = Return n ->
  rpc_getname (VSTR mIndex :: VSTR s :: rest) false w =
    getname mIndex (to_uint32 n) w.
Proof.
  intros Hs. unfold rpc_getmappingname. simpl.
  unfold bind, lift. simpl. rewrite Hs. reflexivity.
Qed.

(** X6. Asked for help, or given fewer than two arguments, each handler
    throws its help text and leaves the state as it was: the arguments are
    not decoded and the store is not read. *)
Theorem help_or_arity_guard (w : world) (params : list UniValue) (fHelp : bool) :
  fHelp = true \/ (List.length params < 2)%nat ->
  rpc_getid params fHelp w =
    (Throw (runtime_error (help_getmappingid HelpExampleCli HelpExampleRpc)), w) /\
  rpc_getname params fHelp w =
    (Throw (runtime_error (help_getmappingname HelpExampleCli HelpExampleRpc)), w).
Proof.
  intros Hguard.
  assert (Hb : fHelp || (List.length params <? 2)%nat = true).
  { destruct Hguard as [->|Hlt]; [reflexivity|].
    apply Nat.ltb_lt in Hlt. rewrite Hlt. apply orb_true_r. }
  unfold rpc_getmappingid, rpc_getmappingname. rewrite Hb.
  split; reflexivity.
Qed.

(** X7. With at least two arguments and no request for help, an argument
    among the first two that is not a string makes each handler throw what
    [get_str] throws, before the token is checked and before the store is
    read: the state is as it was, whatever the token is. *)
Theorem non_string_argument_rejected (w : world) p0 p1 rest :
  (forall s, p0 <> VSTR s) \/ (forall s, p1 <> VSTR s) ->
  rpc_getid (p0 :: p1 :: rest) false w = (Throw not_a_string, w) /\
  rpc_getname (p0 :: p1 :: rest) false w = (Throw not_a_string, w).
Proof.
  intros Hbad.
  unfold rpc_getmappingid, rpc_getmappingname. simpl.
  unfold bind, lift. simpl.
  destruct p0 as [n|b|s0|kvs|vs]; try (split; reflexivity).
  destruct p1 as [n|b|s1|kvs|vs]; try (split; reflexivity).
  exfalso. destruct Hbad as [H|H]; [apply (H s0) | apply (H s1)]; reflexivity.
Qed.

(** X8. When [std::stoi] throws on the second argument, [getmappingname]
    throws the same exception and leaves the state as it was; this comes
    before the check of the token, so it holds for every token. *)
Theorem unparsable_id_rejected (w : world) mIndex s e rest :
  stoi s = Throw e ->
  rpc_getname (VSTR mIndex :: VSTR s :: rest) false w = (Throw e, w).
Proof.
  intros Hs. unfold rpc_getmappingname. simpl.
  unfold bind, lift. simpl. rewrite Hs. reflexivity.
Qed.

(** X9. The number read by [std::stoi] is converted to [uint32_t] before
    the lookup: [getmappingname] returns the name of the record of a
    well-formed index that is filed under the number modulo 2^32. So a
    record under a key of 2^31 or more is reached by a negative number. *)
Theorem id_is_reduced_mod_2_32 (w : world) mIndex s n rest idx r :
  ToTypeName (FromTypeName mIndex) = mIndex ->
  Read (db w) (FromTypeName mIndex) = Some idx ->
  wf_index idx = true ->
  stoi s = Return n ->
  In (n mod UINT32_MOD, r) idx ->
  fst (rpc_getname (VSTR mIndex :: VSTR s :: rest) false w) =
    Return (name_reply (sName r) mIndex).
Proof.
  intros Hvalid Hread Hwf Hs Hin.
  rewrite (rpc_getmappingname_decoded w mIndex s n rest Hs).
  unfold to_uint32.
  rewrite (getmappingname_at_key FromTypeName ToTypeName Read
             w mIndex idx Hvalid Hread (n mod UINT32_MOD) r Hwf Hin).
  reflexivity.
Qed.

(** X10. A call of [getmappingid] that ends in an exception has saved
    nothing: the store is as before, and the handler has made no call on it
    or only the one read. *)
Theorem failed_call_writes_nothing (w : world) params fHelp e :
  let r := rpc_getmappingid FromTypeName ToTypeName Read Save
             HelpExampleCli HelpExampleRpc not_a_string params fHelp w in
  fst r = Throw e ->
  db (snd r) = db w /\
  (ops (snd r) = ops w \/ exists t, ops (snd r) = ops w ++ [DbRead t]).
Proof.
  cbv zeta. unfold rpc_getmappingid.
  destruct (fHelp || (List.length params <? 2)%nat);
    [intros _; split; [reflexivity | left; reflexivity]|].
  rewrite bind_lift.
  destruct (get_str not_a_string (param params 0)) as [mIndex|e0];
    [|intros _; split; [reflexivity | left; reflexivity]].
  rewrite bind_lift.
  destruct (get_str not_a_string (param params 1)) as [name|e1];
    [|intros _; split; [reflexivity | left; reflexivity]].
  destruct (getmappingid_outcomes w mIndex name)
    as [H|[H|[(v & H)|(v & cm & H)]]]; rewrite H; simpl.
  - intros _. split; [reflexivity | left; reflexivity].
  - intros _. split; [reflexivity | right; eexists; reflexivity].
  - discriminate.
  - discriminate.
Qed.

(** X11. [getmappingname] never writes: whatever the arguments and however
    the call ends, the store is as before, and the handler has made no call
    on it or only the one read. *)
Theorem getmappingname_is_read_only (w : world) params fHelp :
  let r := rpc_getmappingname FromTypeName ToTypeName Read
             HelpExampleCli HelpExampleRpc not_a_string stoi params fHelp w in
  db (snd r) = db w /\
  (ops (snd r) = ops w \/ exists t, ops (snd r) = ops w ++ [DbRead t]).
Proof.
  cbv zeta. unfold rpc_getmappingname.
  destruct (fHelp || (List.length params <? 2)%nat);
    [split; [reflexivity | left; reflexivity]|].
  rewrite bind_lift.
  destruct (get_str not_a_string (param params 0)) as [mIndex|e0];
    [|split; [reflexivity | left; reflexivity]].
  rewrite bind_lift.
  destruct (get_str not_a_string (param params 1)) as [s|e1];
    [|split; [reflexivity | left; reflexivity]].
  rewrite bind_lift.
  destruct (stoi s) as [n|e2];
    [|split; [reflexivity | left; reflexivity]].
  destruct (getmappingname_outcomes w mIndex (to_uint32 n)) as [H|H];
    rewrite H; simpl.
  - split; [reflexivity | left; reflexivity].
  - split; [reflexivity | right; eexists; reflexivity].
Qed.

End RpcFacts.

(** * More runs on the sample catalog *)

Section MoreRuns.

Import Sample.

Local Abbreviation save := (mem_Save MType_eq_dec).

Lemma allocation_is_first_free_mod_2_32_witness :
  exists id m,
    fst (getid "sport" "Rugby" (world_of idx013)) =
      Return (id_reply id false "sport") /\
    first_free (keys idx013) m /\ id = m mod UINT32_MOD.
Proof.
  apply (allocation_is_first_free_mod_2_32 FromTypeName ToTypeName mem_Read save
           (world_of idx013) "sport" "Rugby" idx013 eq_refl eq_refl).
  - reflexivity.
  - intros e [<-|[<-|[<-|[]]]]; discriminate.
Defined.

Lemma allocated_id_bounds_witness :
  exists id,
    fst (getid "sport" "Rugby" (world_of idx_dup)) =
      Return (id_reply id false "sport") /\
    0 <= id < UINT32_MOD /\ id <= 3.
Proof.
  apply (allocated_id_bounds FromTypeName ToTypeName mem_Read save
           (world_of idx_dup) "sport" "Rugby" idx_dup eq_refl eq_refl).
  intros e [<-|[<-|[<-|[]]]]; discriminate.
Defined.

Lemma fresh_id_is_unresolved_witness :
  exists id,
    fst (getid "sport" "Rugby" (world_of idx013)) =
      Return (id_reply id false "sport") /\
    fst (getname "sport" id (world_of idx013)) = Throw MappingNotFound.
Proof.
  apply (fresh_id_is_unresolved FromTypeName ToTypeName mem_Read save
           (world_of idx013) "sport" "Rugby" idx013 eq_refl eq_refl).
  - reflexivity.
  - reflexivity.
  - intros e [<-|[<-|[<-|[]]]]; discriminate.
Defined.

Lemma empty_index_edge_witness :
  fst (getid "sport" "Rugby" (world_of [])) = Return (id_reply 0 false "sport") /\
  fst (getname "sport" 0 (world_of [])) = Throw MappingNotFound.
Proof.
  destruct (empty_index_edge FromTypeName ToTypeName mem_Read save
              (world_of []) "sport" "Rugby" [] eq_refl eq_refl 0 eq_refl)
    as [Hid Hname].
  split; [unfold getid; rewrite Hid; reflexivity | exact Hname].
Defined.

Lemma next_id_never_decreases_witness :
  exists id id',
    fst (getid "sport" "Rugby" (world_of idx01)) =
      Return (id_reply id false "sport") /\
    fst (getid "sport" "Rugby" (world_of idx013)) =
      Return (id_reply id' false "sport") /\
    id <= id'.
Proof.
  apply (next_id_never_decreases FromTypeName ToTypeName mem_Read save
           (world_of idx01) "sport" "Rugby" idx01 eq_refl eq_refl
           (world_of idx013) "sport" "Rugby" idx013 eq_refl eq_refl);
    try reflexivity.
  - intros e [<-|[<-|[]]]; discriminate.
  - intros e [<-|[<-|[<-|[]]]]; discriminate.
  - intros k [<-|[<-|[]]]; simpl; auto.
Defined.


Lemma help_or_arity_guard_witness :
  fst (SampleRpc.getid [VSTR "sport"] false (world_of idx01)) =
    Throw (runtime_error
             (help_getmappingid SampleRpc.HelpExampleCli SampleRpc.HelpExampleRpc)) /\
  snd (SampleRpc.getname [VSTR "sport"] false (world_of idx01)) = world_of idx01.
Proof.
  destruct (help_or_arity_guard FromTypeName ToTypeName mem_Read save
              SampleRpc.HelpExampleCli SampleRpc.HelpExampleRpc
              SampleRpc.not_a_string SampleRpc.stoi
              (world_of idx01) [VSTR "sport"] false) as [Hid Hname].
  - right. simpl. lia.
  - split.
    + unfold SampleRpc.getid. rewrite Hid. reflexivity.
    + unfold SampleRpc.getname. rewrite Hname. reflexivity.
Defined.

Lemma non_string_argument_rejected_witness :
  SampleRpc.getid [VSTR "not-a-real-type"; VNUM 1] false (world_of idx01) =
    (Throw SampleRpc.not_a_string, world_of idx01) /\
  SampleRpc.getname [VSTR "not-a-real-type"; VNUM 1] false (world_of idx01) =
    (Throw SampleRpc.not_a_string, world_of idx01).
Proof.
  apply (non_string_argument_rejected FromTypeName ToTypeName mem_Read save
           SampleRpc.HelpExampleCli SampleRpc.HelpExampleRpc
           SampleRpc.not_a_string SampleRpc.stoi
           (world_of idx01) (VSTR "not-a-real-type") (VNUM 1) []).
  right. intros s. discriminate.
Defined.

Lemma unparsable_id_rejected_witness :
  SampleRpc.getname [VSTR "not-a-real-type"; VSTR "x1"] false (world_of idx01) =
    (Throw (runtime_error "stoi"), world_of idx01).
Proof.
  apply (unparsable_id_rejected FromTypeName ToTypeName mem_Read
           SampleRpc.HelpExampleCli SampleRpc.HelpExampleRpc
           SampleRpc.not_a_string SampleRpc.stoi
           (world_of idx01) "not-a-real-type" "x1" (runtime_error "stoi") []).
  reflexivity.
Defined.

Lemma id_is_reduced_mod_2_32_witness :
  fst (SampleRpc.getname [VSTR "sport"; VSTR "-1"] false
         (world_of SampleRpc.idx_top)) =
    Return (name_reply "Last" "sport").
Proof.
  apply (id_is_reduced_mod_2_32 FromTypeName ToTypeName mem_Read
           SampleRpc.HelpExampleCli SampleRpc.HelpExampleRpc
           SampleRpc.not_a_string SampleRpc.stoi
           (world_of SampleRpc.idx_top) "sport" "-1" (-1) []
           SampleRpc.idx_top (rec 4294967295 "Last"));
    try reflexivity.
  right. left. reflexivity.
Defined.

Lemma failed_call_writes_nothing_witness :
  db (snd (SampleRpc.getid [VSTR "team"; VSTR "x"] false (world_of idx01))) =
    store_of idx01 /\
  (ops (snd (SampleRpc.getid [VSTR "team"; VSTR "x"] false (world_of idx01))) = [] \/
   exists t,
     ops (snd (SampleRpc.getid [VSTR "team"; VSTR "x"] false (world_of idx01))) =
       [] ++ [DbRead t]).
Proof.
  apply (failed_call_writes_nothing FromTypeName ToTypeName mem_Read save
           SampleRpc.HelpExampleCli SampleRpc.HelpExampleRpc
           SampleRpc.not_a_string
           (world_of idx01) [VSTR "team"; VSTR "x"] false IndexUnavailable).
  reflexivity.
Defined.

End MoreRuns.
